(** * The openings route: token, paginated fetch, regrouping

    A shallow embedding of [src/server/src/app/api/openings/route.ts]:
    the [GET] handler, the paginated [fetchJobRequisitions] closure,
    [getAccessToken] and [restructureOpenings], with the properties of the
    specification stated over them.

    Conventions.  JavaScript numbers that hold counts, offsets, HTTP
    statuses and epoch milliseconds are integers ([Z]).  A value that may be
    [undefined] is an [option].  A computation that may throw is a
    [completion].  The network and the clock are explicit parameters
    ([World]); [Date_parse] stands for the built-in date parser, and
    [unstable_cache] for the identity on the function it wraps.  The
    environment variables are taken to be set, so that building the URL
    and the agent does not throw.  Where a property is about what the code
    writes to, the transform is run on a [Heap]. *)

From Stdlib Require Import List String Ascii ZArith NArith Lia Bool.
From Stdlib Require Import Decimal DecimalString Permutation Sorted.
From Stdlib Require DecimalZ DecimalPos.
Import ListNotations.

Local Open Scope string_scope.
Local Open Scope Z_scope.
Local Open Scope list_scope.

(** ** JavaScript values used by the route *)

Module JS.

(** The [response] member of an axios error: the upstream status line and
    the upstream body. *)
Record ErrorResponse : Type := {
  status : Z;
  data : string
}.

(** A thrown value: [message] is always there, [response] only on an
    axios error raised for a response the upstream really sent. *)
Record Error : Type := {
  message : string;
  response : option ErrorResponse
}.

(** [new Error(msg)] and the engine's own [TypeError]s carry no
    [response]. *)
Definition new_Error (msg : string) : Error :=
  {| message := msg; response := None |}.

Inductive completion (A : Type) : Type :=
| Normal (a : A)
| Throw (e : Error).
Arguments Normal {A} a.
Arguments Throw {A} e.

Definition bind {A B : Type} (c : completion A) (k : A -> completion B)
  : completion B :=
  match c with
  | Normal a => k a
  | Throw e => Throw e
  end.

(** [a ?? d] *)
Definition nullish {A : Type} (a : option A) (d : A) : A :=
  match a with
  | Some x => x
  | None => d
  end.

(** [arr[0].prop]: reading [prop] off the first element throws when the
    array is empty, since [arr[0]] is then [undefined]. *)
Definition first_then {A : Type} (arr : list A) (prop : string)
  : completion A :=
  match arr with
  | x :: _ => Normal x
  | [] =>
      Throw (new_Error
        ("Cannot read properties of undefined (reading '"
         ++ prop ++ "')")%string)
  end.

(** *** Plain objects used as string-keyed maps

    The own properties are kept in creation order.  What a consumer
    observes ([Object.keys], [JSON.stringify]) is [entries]: the keys that
    are array indices first, in ascending numeric order, then the other
    keys in creation order. *)

Definition Object' (V : Type) : Type := list (string * V).

Fixpoint own {V : Type} (key : string) (o : Object' V) : option V :=
  match o with
  | [] => None
  | (k, v) :: o' => if String.eqb k key then Some v else own key o'
  end.

Fixpoint update {V : Type} (key : string) (f : V -> V) (o : Object' V)
  : Object' V :=
  match o with
  | [] => []
  | (k, v) :: o' =>
      if String.eqb k key then (k, f v) :: o'
      else (k, v) :: update key f o'
  end.

(** The property names every object literal inherits from
    [Object.prototype]; each one reads as a function or an object, hence
    truthy, and none of them has a [push] method. *)
Definition Object_prototype : list string :=
  [ "constructor"; "__defineGetter__"; "__defineSetter__";
    "hasOwnProperty"; "__lookupGetter__"; "__lookupSetter__";
    "isPrototypeOf"; "propertyIsEnumerable"; "toString"; "valueOf";
    "__proto__"; "toLocaleString" ].

Definition inherited (key : string) : bool :=
  existsb (String.eqb key) Object_prototype.

(** A key is an array index when it is the canonical decimal form of an
    integer between 0 and 2^32 - 2. *)
Definition array_index (key : string) : option N :=
  match NilZero.uint_of_string key with
  | Some u =>
      let n := N.of_uint u in
      if (String.eqb (NilZero.string_of_uint (N.to_uint n)) key
          && (n <=? 4294967294)%N)%bool
      then Some n else None
  | None => None
  end.

Definition is_index (key : string) : bool :=
  match array_index key with Some _ => true | None => false end.

Definition index_of (key : string) : N :=
  match array_index key with Some n => n | None => 0%N end.

Fixpoint insert_by_index {V : Type} (e : string * V) (l : list (string * V))
  : list (string * V) :=
  match l with
  | [] => [e]
  | e' :: l' =>
      if (index_of (fst e) <=? index_of (fst e'))%N then e :: e' :: l'
      else e' :: insert_by_index e l'
  end.

Definition sort_by_index {V : Type} (l : list (string * V))
  : list (string * V) :=
  fold_right insert_by_index [] l.

Definition entries {V : Type} (o : Object' V) : list (string * V) :=
  sort_by_index (filter (fun e => is_index (fst e)) o)
  ++ filter (fun e => negb (is_index (fst e))) o.

Definition keys {V : Type} (o : Object' V) : list string :=
  map fst (entries o).

End JS.

Import JS.

Notation "x <- c ;; k" := (bind c (fun x => k))
  (at level 61, c at next level, right associativity).

(** ** Data model *)

(** Modelled from the spec: the declaration of [types/requisition] is not
    among the sources.  The fields are those the route reads; a field the
    route reads through [?.] or [??] is optional, every other one is
    present; the three arrays whose first element is read may be empty. *)
Module Req.

Record NameCode : Type := {
  codeValue : option string;
  shortName : option string
}.

Record OrganizationalUnit : Type := {
  ou_nameCode : NameCode
}.

Record PostingInstruction : Type := {
  pi_nameCode : NameCode;
  expireDate : option string
}.

Record Address : Type := {
  cityName : string;
  countrySubdivisionLevel1 : option NameCode;
  countryCode : string
}.

Record RequisitionLocation : Type := {
  address : Address
}.

Record Link : Type := {
  title : option string;
  href : option string
}.

Record JobRequisition : Type := {
  organizationalUnits : list OrganizationalUnit;
  postingInstructions : list PostingInstruction;
  requisitionLocations : list RequisitionLocation;
  workerTypeCode : option NameCode;
  links : list Link
}.

Record Meta : Type := {
  totalNumber : Z
}.

Record Requisition : Type := {
  jobRequisitions : list JobRequisition;
  meta : Meta
}.

End Req.

(** Modelled from the spec: the declaration of [types/opening] is not among
    the sources.  [Opening] is the type the route gives to [jobMap]: an
    object from department name to the array of that department's items;
    [Item] has the seven fields of the object literal pushed by
    [restructureOpenings]. *)
Module Opn.

Record Item : Type := {
  jobTitle : option string;
  openingLink : string;
  cityName : string;
  codeValue : string;
  countryCode : string;
  workerTypeCode : string;
  expireDate : option string
}.

End Opn.

Definition Opening : Type := Object' (list Opn.Item).

(** ** [restructureOpenings] *)

Definition career_center : string := "HL External Career Center".

Section Route.

(** [new Date(s).valueOf()]: epoch milliseconds, [None] for an invalid
    date (NaN). *)
Variable Date_parse : string -> option Z.

(** [expireDate && new Date(expireDate) < currentDate]: an absent or empty
    string is falsy, and a comparison with NaN is false. *)
Definition is_expired (currentDate : Z) (expireDate : option string) : bool :=
  match expireDate with
  | None => false
  | Some s =>
      if String.eqb s "" then false
      else match Date_parse s with
           | Some t => t <? currentDate
           | None => false
           end
  end.

(** [(link) => link.title === "HL External Career Center"] *)
Definition is_career_center (link : Req.Link) : bool :=
  match Req.title link with
  | Some t => String.eqb t career_center
  | None => false
  end.

(** Lines 139-151: create the department's array on first use, then
    push.  An own property is an array (truthy).  A name inherited from
    [Object.prototype] is truthy too, so no array is created, and calling
    its missing [push] throws. *)
Definition push_opening (department : string) (item : Opn.Item)
    (jobMap : Opening) : completion Opening :=
  match own department jobMap with
  | Some _ => Normal (update department (fun arr => arr ++ [item]) jobMap)
  | None =>
      if inherited department
      then Throw (new_Error "jobMap[department].push is not a function")
      else Normal (jobMap ++ [(department, [item])])
  end.

(** The callback given to [forEach] (lines 116-152). *)
Definition callback (currentDate : Z) (jobMap : Opening)
    (jobRequisition : Req.JobRequisition) : completion Opening :=
  ou <- first_then (Req.organizationalUnits jobRequisition) "nameCode" ;;
  let department := nullish (Req.shortName (Req.ou_nameCode ou)) "Others" in
  if String.eqb department "All" then Normal jobMap else
  let openingLink :=
    match find is_career_center (Req.links jobRequisition) with
    | Some link => nullish (Req.href link) ""
    | None => ""
    end in
  pi <- first_then (Req.postingInstructions jobRequisition) "nameCode" ;;
  let jobTitle := Req.codeValue (Req.pi_nameCode pi) in
  let expireDate := Req.expireDate pi in
  loc <- first_then (Req.requisitionLocations jobRequisition) "address" ;;
  let cityName := Req.cityName (Req.address loc) in
  let codeValue :=
    match Req.countrySubdivisionLevel1 (Req.address loc) with
    | Some sub => nullish (Req.codeValue sub) ""
    | None => ""
    end in
  let countryCode := Req.countryCode (Req.address loc) in
  let workerTypeCode :=
    match Req.workerTypeCode jobRequisition with
    | Some w => nullish (Req.shortName w) ""
    | None => ""
    end in
  if is_expired currentDate expireDate then Normal jobMap else
  push_opening department
    {| Opn.jobTitle := jobTitle;
       Opn.openingLink := openingLink;
       Opn.cityName := cityName;
       Opn.codeValue := codeValue;
       Opn.countryCode := countryCode;
       Opn.workerTypeCode := workerTypeCode;
       Opn.expireDate := expireDate |}
    jobMap.

(** [arr.forEach(cb)] with the callback's state made explicit; a throw
    ends the iteration. *)
Fixpoint forEach {A S : Type} (cb : S -> A -> completion S) (arr : list A)
    (s : S) : completion S :=
  match arr with
  | [] => Normal s
  | x :: arr' => s' <- cb s x ;; forEach cb arr' s'
  end.

Definition restructureOpenings (currentDate : Z) (openings : Req.Requisition)
  : completion Opening :=
  forEach (callback currentDate) (Req.jobRequisitions openings) [].

(** ** The network *)

(** The parsed body of the token endpoint's answer; [access_token] is
    [undefined] when the body has no such member. *)
Record TokenData : Type := {
  access_token : option string
}.

(** What the route talks to.  [token_endpoint] is the completion of the one
    [axios.post]: a rejection, or a response whose [data] is [None] when the
    body is null.  [listing_endpoint] is the completion of [axios.get] for an
    [Authorization] header and a [$skip] offset; a run never asks for the
    same offset twice, so a function of the offset covers every sequence of
    answers.  [clock] is what [new Date()] reads. *)
Record World : Type := {
  token_endpoint : completion (option TokenData);
  listing_endpoint : string -> Z -> completion Req.Requisition;
  clock : Z
}.

Inductive request : Type :=
| POST_token
| GET_page (authorization : string) (skip : Z).

Definition token_failure : string := "Failed to retrieve access token".

(** Lines 88-110.  Reading [access_token] off a null body throws inside the
    [try], so it ends in the same [catch] as a rejected request. *)
Definition getAccessToken (w : World) : completion (option string) :=
  match token_endpoint w with
  | Normal (Some body) => Normal (access_token body)
  | Normal None => Throw (new_Error token_failure)
  | Throw _ => Throw (new_Error token_failure)
  end.

(** The template literal [`Bearer ${token}`]. *)
Definition bearer (token : option string) : string :=
  ("Bearer " ++ nullish token "undefined")%string.

(** The [do ... while] of lines 39-61, for at most [fuel] turns; [None] when
    the turns run out.  The first component lists the [$skip] offsets
    requested, in order. *)
Fixpoint fetch_loop (get : Z -> completion Req.Requisition) (fuel : nat)
    (allRequisitions : list Req.JobRequisition) (skip : Z)
  : list Z * option (completion Req.Requisition) :=
  match fuel with
  | O => ([], None)
  | S fuel' =>
      match get skip with
      | Throw e => ([skip], Some (Throw e))
      | Normal batchData =>
          let allRequisitions :=
            allRequisitions ++ Req.jobRequisitions batchData in
          let totalNumber := Req.totalNumber (Req.meta batchData) in
          let skip' := skip + 20 in
          if skip' <? totalNumber then
            let '(asked, result) :=
              fetch_loop get fuel' allRequisitions skip' in
            (skip :: asked, result)
          else
            ([skip],
             Some (Normal {| Req.jobRequisitions := allRequisitions;
                             Req.meta := {| Req.totalNumber := totalNumber |}
                          |}))
      end
  end.

(** The function wrapped by [unstable_cache] (lines 13-68), with the
    requests it sends. *)
Definition fetchJobRequisitions (w : World) (fuel : nat)
  : list request * option (completion Req.Requisition) :=
  match getAccessToken w with
  | Throw e => ([POST_token], Some (Throw e))
  | Normal token =>
      let authorization := bearer token in
      let '(asked, result) :=
        fetch_loop (listing_endpoint w authorization) fuel [] 0 in
      (POST_token :: map (GET_page authorization) asked, result)
  end.

(** ** The handler *)

Inductive Body : Type :=
| Json_openings (departments : list (string * list Opn.Item))
| Json_error (error : string).

Record NextResponse : Type := {
  body : Body;
  http_status : Z
}.

(** [axiosError.response?.status || 500]: zero is falsy. *)
Definition status_or_500 (e : Error) : Z :=
  match response e with
  | Some r => if status r =? 0 then 500 else status r
  | None => 500
  end.

(** What becomes of a call of the handler: the response it returns, or the
    error that the making of the response throws, which nothing catches. *)
Inductive Rejection : Type :=
| RangeError_status (status : Z)
| TypeError_null_body (status : Z).

Inductive Handled : Type :=
| Responds (answer : NextResponse)
| Rejects (thrown : Rejection).

(** The conversion every [unsigned short] argument of the platform goes
    through; an HTTP status is below 65536 and is left as it is. *)
Definition unsigned_short (n : Z) : Z := n mod 65536.

(** The statuses of responses that cannot have a body. *)
Definition null_body_status (s : Z) : bool :=
  existsb (Z.eqb s) [101; 103; 204; 205; 304].

(** [NextResponse.json(body, { status })].  The response is made by the
    platform's [Response], which throws a [RangeError] for a status outside
    200..599 and a [TypeError] for a body given with a null-body status. *)
Definition NextResponse_json (b : Body) (init_status : Z) : Handled :=
  let s := unsigned_short init_status in
  if ((s <? 200) || (599 <? s))%bool then Rejects (RangeError_status s)
  else if null_body_status s then Rejects (TypeError_null_body s)
  else Responds {| body := b; http_status := s |}.

(** Lines 81-84, the answer made in the [catch]. *)
Definition error_response (e : Error) : Handled :=
  NextResponse_json (Json_error (message e)) (status_or_500 e).

(** Lines 75-85.  The body of a success is the JSON text of [jobMap], whose
    members come in the order of [entries].  [None] stands for a fetch whose
    turns ran out. *)
Definition GET (w : World) (fuel : nat) : list request * option Handled :=
  let '(sent, fetched) := fetchJobRequisitions w fuel in
  (sent,
   match fetched with
   | None => None
   | Some (Throw e) => Some (error_response e)
   | Some (Normal requisitions) =>
       match restructureOpenings (clock w) requisitions with
       | Normal openings =>
           Some (NextResponse_json (Json_openings (entries openings)) 200)
       | Throw e => Some (error_response e)
       end
   end).

End Route.

(** [ceil(T / 20)], and the number of pages of a listing of [T] records. *)
Definition ceil_div (a b : Z) : Z := (a + b - 1) / b.

Definition page_count (T : Z) : nat :=
  Z.to_nat (if T =? 0 then 1 else ceil_div T 20).

(** The offsets [0, 20, 40, ...] of the first [n] pages. *)
Definition offsets (n : nat) : list Z :=
  map (fun i => 20 * Z.of_nat i) (seq 0 n).

(** The offsets of [n] pages in a row, the first one at [skip]. *)
Fixpoint offsets_from (skip : Z) (n : nat) : list Z :=
  match n with
  | O => []
  | S n' => skip :: offsets_from (skip + 20) n'
  end.

(** ** Vocabulary for the statements *)

(** The department the callback computes at lines 117-118, when the first
    organizational unit exists. *)
Definition department_of (r : Req.JobRequisition) : option string :=
  match Req.organizationalUnits r with
  | ou :: _ => Some (nullish (Req.shortName (Req.ou_nameCode ou)) "Others")
  | [] => None
  end.

(** The expire date the callback reads at line 125. *)
Definition expireDate_of (r : Req.JobRequisition) : option string :=
  match Req.postingInstructions r with
  | pi :: _ => Req.expireDate pi
  | [] => None
  end.

(** Every item of a map, each with the department it is filed under. *)
Definition items (jobMap : Opening) : list (string * Opn.Item) :=
  flat_map (fun '(department, arr) => map (pair department) arr) jobMap.

(** What one record files when the callback meets it with an empty map:
    nothing when it returns early or throws, one item otherwise. *)
Definition produced (Date_parse : string -> option Z) (currentDate : Z)
    (r : Req.JobRequisition) : list (string * Opn.Item) :=
  match callback Date_parse currentDate [] r with
  | Normal jobMap => items jobMap
  | Throw _ => []
  end.

(** [push_opening] where it does not throw. *)
Definition file_item (jobMap : Opening) (e : string * Opn.Item) : Opening :=
  match own (fst e) jobMap with
  | Some _ => update (fst e) (fun arr => arr ++ [snd e]) jobMap
  | None => jobMap ++ [(fst e, [snd e])]
  end.

Definition filed_under (department : string) (e : string * Opn.Item) : bool :=
  String.eqb (fst e) department.

(** The names of [ds] in order of first occurrence, those in [seen] left
    out. *)
Fixpoint first_seen (seen ds : list string) : list string :=
  match ds with
  | [] => []
  | d :: ds' =>
      if existsb (String.eqb d) seen then first_seen seen ds'
      else d :: first_seen (d :: seen) ds'
  end.

Definition by_index (a b : string) : Prop :=
  (index_of a <= index_of b)%N.

(** No own property of the map shadows a name of [Object.prototype]. *)
Definition no_inherited (jobMap : Opening) : Prop :=
  Forall (fun k => inherited k = false) (map fst jobMap).

(** What a record does is the same whatever the map holds: it throws, it
    leaves the map alone, or it files one item. *)
Inductive verdict (Date_parse : string -> option Z) (now : Z)
    (r : Req.JobRequisition) : Prop :=
| Throws (e : Error)
    (no_status : response e = None)
    (run : forall jobMap, callback Date_parse now jobMap r = Throw e)
| Skips
    (run : forall jobMap, callback Date_parse now jobMap r = Normal jobMap)
| Files (d : string) (o : Opn.Item)
    (dept : department_of r = Some d)
    (not_All : d <> "All")
    (fresh : is_expired Date_parse now (expireDate_of r) = false)
    (link : Opn.openingLink o =
            match find is_career_center (Req.links r) with
            | Some l => nullish (Req.href l) ""
            | None => ""
            end)
    (run : forall jobMap,
        callback Date_parse now jobMap r = push_opening d o jobMap).

(** ** Sample data *)

Module Sample.

(** Two ISO dates with their epoch milliseconds; anything else is an
    invalid date. *)
Definition Date_parse (s : string) : option Z :=
  if String.eqb s "2024-01-01T00:00:00.000Z" then Some 1704067200000
  else if String.eqb s "2030-01-01T00:00:00.000Z" then Some 1893456000000
  else None.

(** 2025-01-01T00:00:00.000Z *)
Definition today : Z := 1735689600000.

Definition unit_named (name : option string) : Req.OrganizationalUnit :=
  {| Req.ou_nameCode := {| Req.codeValue := None; Req.shortName := name |} |}.

Definition posting (expire : option string) : Req.PostingInstruction :=
  {| Req.pi_nameCode :=
       {| Req.codeValue := Some "Analyst"; Req.shortName := None |};
     Req.expireDate := expire |}.

Definition new_york : Req.RequisitionLocation :=
  {| Req.address :=
       {| Req.cityName := "New York";
          Req.countrySubdivisionLevel1 :=
            Some {| Req.codeValue := Some "NY"; Req.shortName := None |};
          Req.countryCode := "US" |} |}.

Definition apply_link (target : string) : Req.Link :=
  {| Req.title := Some career_center; Req.href := Some target |}.

Definition self_link : Req.Link :=
  {| Req.title := None; Req.href := Some "/job-requisitions/1" |}.

Definition requisition (name : option string) (expire : option string)
  : Req.JobRequisition :=
  {| Req.organizationalUnits := [unit_named name];
     Req.postingInstructions := [posting expire];
     Req.requisitionLocations := [new_york];
     Req.workerTypeCode := None;
     Req.links :=
       [self_link; apply_link "https://a"; apply_link "https://b"] |}.

Definition no_units : Req.JobRequisition :=
  {| Req.organizationalUnits := [];
     Req.postingInstructions := [posting None];
     Req.requisitionLocations := [new_york];
     Req.workerTypeCode := None;
     Req.links := [] |}.

Definition batch (rs : list Req.JobRequisition) (total : Z) : Req.Requisition :=
  {| Req.jobRequisitions := rs; Req.meta := {| Req.totalNumber := total |} |}.

Definition item (expire : option string) : Opn.Item :=
  {| Opn.jobTitle := Some "Analyst";
     Opn.openingLink := "https://a";
     Opn.cityName := "New York";
     Opn.codeValue := "NY";
     Opn.countryCode := "US";
     Opn.workerTypeCode := "";
     Opn.expireDate := expire |}.

(** An upstream holding [T] identical records and serving them twenty at a
    time. *)
Definition page_of (T : Z) (skip : Z) : list Req.JobRequisition :=
  repeat (requisition (Some "Sales") None)
         (Z.to_nat (Z.min 20 (Z.max 0 (T - skip)))).

Definition listing (T : Z) (authorization : string) (skip : Z)
  : completion Req.Requisition :=
  Normal (batch (page_of T skip) T).

Definition token_ok : completion (option TokenData) :=
  Normal (Some {| access_token := Some "t0k3n" |}).

Definition upstream (T : Z) : World :=
  {| token_endpoint := token_ok;
     listing_endpoint := listing T;
     clock := today |}.

(** Axios errors for an answer with a status, and for no answer at all. *)
Definition rejected (code : Z) (upstream_body : string) : Error :=
  {| message := "Request failed";
     response := Some {| status := code; data := upstream_body |} |}.

Definition unreachable : Error :=
  {| message := "connect ECONNREFUSED"; response := None |}.

(** The token endpoint answers 401 with a body of its own. *)
Definition token_refused : World :=
  {| token_endpoint := Throw (rejected 401 "invalid_client");
     listing_endpoint := listing 25;
     clock := today |}.

(** The token endpoint answers 200 with a body that has no [access_token],
    and the listing refuses the token it is then shown. *)
Definition token_without_member : World :=
  {| token_endpoint := Normal (Some {| access_token := None |});
     listing_endpoint :=
       fun authorization skip =>
         if skip =? 0 then Normal (batch (page_of 45 0) 45)
         else Throw (rejected 403 "forbidden");
     clock := today |}.

(** Forty-five records upstream; the first page is served, any later
    request ends in [e]. *)
Definition later_pages_fail (e : Error) : World :=
  {| token_endpoint := token_ok;
     listing_endpoint :=
       fun authorization skip =>
         if skip =? 0 then listing 45 authorization skip else Throw e;
     clock := today |}.

(** An upstream that reports 25 records and serves three per page. *)
Definition short_pages : World :=
  {| token_endpoint := token_ok;
     listing_endpoint :=
       fun authorization skip =>
         Normal (batch (repeat (requisition (Some "Sales") None) 3) 25);
     clock := today |}.

End Sample.

(** ** The request URL *)

(** The name-value pairs of [endpoint.searchParams], in order.  The path of
    [route] is absolute, so [new URL(route, base)] starts with no pair. *)
Definition URLSearchParams : Type := list (string * string).

Fixpoint delete_name (name : string) (params : URLSearchParams)
  : URLSearchParams :=
  match params with
  | [] => []
  | (n, v) :: params' =>
      if String.eqb n name then delete_name name params'
      else (n, v) :: delete_name name params'
  end.

(** [searchParams.set(name, value)]: the first pair of that name takes the
    value and the other pairs of that name go; with no such pair, the new
    one is appended. *)
Fixpoint searchParams_set (name value : string) (params : URLSearchParams)
  : URLSearchParams :=
  match params with
  | [] => [(name, value)]
  | (n, v) :: params' =>
      if String.eqb n name then (name, value) :: delete_name name params'
      else (n, v) :: searchParams_set name value params'
  end.

(** [skip.toString()] on an integer: its decimal digits, with a minus sign
    below zero. *)
Definition Number_toString (n : Z) : string :=
  NilZero.string_of_int (Z.to_int n).

Definition status_filter : string := "requisitionStatusCode/codeValue eq ON".

(** Lines 14-20: the parameters of [endpoint] before the loop. *)
Definition endpoint_searchParams : URLSearchParams :=
  searchParams_set "$top" "20"
    (searchParams_set "$filter" status_filter []).

(** The loop of lines 39-61 again, now with the [endpoint] object it
    rewrites at each turn (line 41) and sends (line 44); the first
    component lists the parameters of each request sent. *)
Fixpoint fetch_loop_endpoint
    (send : URLSearchParams -> completion Req.Requisition) (fuel : nat)
    (searchParams : URLSearchParams)
    (allRequisitions : list Req.JobRequisition) (skip : Z)
  : list URLSearchParams * option (completion Req.Requisition) :=
  match fuel with
  | O => ([], None)
  | S fuel' =>
      let searchParams :=
        searchParams_set "$skip" (Number_toString skip) searchParams in
      match send searchParams with
      | Throw e => ([searchParams], Some (Throw e))
      | Normal batchData =>
          let allRequisitions :=
            allRequisitions ++ Req.jobRequisitions batchData in
          let totalNumber := Req.totalNumber (Req.meta batchData) in
          let skip' := skip + 20 in
          if skip' <? totalNumber then
            let '(sent, result) :=
              fetch_loop_endpoint send fuel' searchParams
                allRequisitions skip' in
            (searchParams :: sent, result)
          else
            ([searchParams],
             Some (Normal {| Req.jobRequisitions := allRequisitions;
                             Req.meta := {| Req.totalNumber := totalNumber |}
                          |}))
      end
  end.

(** The parameters of the page request at offset [skip]. *)
Definition page_query (skip : Z) : URLSearchParams :=
  [("$filter", status_filter); ("$top", "20");
   ("$skip", Number_toString skip)].

(** ** More vocabulary *)

(** The pages of a run that ends well: each page but the last reports a
    total beyond the next offset, the last one does not. *)
Fixpoint pages_chain (get : Z -> completion Req.Requisition) (skip : Z)
    (batches : list Req.Requisition) : Prop :=
  match batches with
  | [] => False
  | batch :: later =>
      get skip = Normal batch /\
      match later with
      | [] => Req.totalNumber (Req.meta batch) <= skip + 20
      | _ :: _ =>
          skip + 20 < Req.totalNumber (Req.meta batch) /\
          pages_chain get (skip + 20) later
      end
  end.

(** The total reported by the last page. *)
Definition last_total (batches : list Req.Requisition) : Z :=
  Req.totalNumber
    (Req.meta (last batches {| Req.jobRequisitions := [];
                               Req.meta := {| Req.totalNumber := 0 |} |})).

(** A record cut down to the first element of each of the three arrays the
    callback indexes. *)
Definition first_only (r : Req.JobRequisition) : Req.JobRequisition :=
  {| Req.organizationalUnits := firstn 1 (Req.organizationalUnits r);
     Req.postingInstructions := firstn 1 (Req.postingInstructions r);
     Req.requisitionLocations := firstn 1 (Req.requisitionLocations r);
     Req.workerTypeCode := Req.workerTypeCode r;
     Req.links := Req.links r |}.

(** The item the callback builds at lines 120-132 and 143-151 from a
    record, its first posting instruction and its first location. *)
Definition item_from (r : Req.JobRequisition) (pi : Req.PostingInstruction)
    (loc : Req.RequisitionLocation) : Opn.Item :=
  {| Opn.jobTitle := Req.codeValue (Req.pi_nameCode pi);
     Opn.openingLink :=
       match find is_career_center (Req.links r) with
       | Some link => nullish (Req.href link) ""
       | None => ""
       end;
     Opn.cityName := Req.cityName (Req.address loc);
     Opn.codeValue :=
       match Req.countrySubdivisionLevel1 (Req.address loc) with
       | Some sub => nullish (Req.codeValue sub) ""
       | None => ""
       end;
     Opn.countryCode := Req.countryCode (Req.address loc);
     Opn.workerTypeCode :=
       match Req.workerTypeCode r with
       | Some w => nullish (Req.shortName w) ""
       | None => ""
       end;
     Opn.expireDate := Req.expireDate pi |}.

(** ** The transform on a heap *)

(** The objects the transform can reach: the one bound to its parameter,
    with all that hangs from it, and the objects made so far by object
    literals, in order of creation; a reference to one of these is its
    rank. *)
Record Heap : Type := {
  argument : Req.Requisition;
  objects : list Opening
}.

Definition object_at (ref : nat) (h : Heap) : Opening :=
  nth ref (objects h) [].

Fixpoint replace_nth {A : Type} (n : nat) (x : A) (l : list A) : list A :=
  match l, n with
  | [], _ => []
  | _ :: l', O => x :: l'
  | y :: l', S n' => y :: replace_nth n' x l'
  end.

Definition set_object (ref : nat) (o : Opening) (h : Heap) : Heap :=
  {| argument := argument h; objects := replace_nth ref o (objects h) |}.

(** The object literal of line 113: a new empty object, and its
    reference. *)
Definition new_object (h : Heap) : Heap * nat :=
  ({| argument := argument h; objects := objects h ++ [[]] |},
   List.length (objects h)).

(** The callback as a heap transformer (lines 116-152): it is handed the
    heap whole, reads [jobRequisition], tests and creates the department's
    array (lines 139-141) and pushes the item (lines 143-151) through the
    reference [jobMap]. *)
Definition callback_on (Date_parse : string -> option Z) (currentDate : Z)
    (jobMap : nat) (jobRequisition : Req.JobRequisition) (h : Heap)
  : Heap * completion unit :=
  match first_then (Req.organizationalUnits jobRequisition) "nameCode" with
  | Throw e => (h, Throw e)
  | Normal ou =>
  let department := nullish (Req.shortName (Req.ou_nameCode ou)) "Others" in
  if String.eqb department "All" then (h, Normal tt) else
  match first_then (Req.postingInstructions jobRequisition) "nameCode" with
  | Throw e => (h, Throw e)
  | Normal pi =>
  match first_then (Req.requisitionLocations jobRequisition) "address" with
  | Throw e => (h, Throw e)
  | Normal loc =>
  if is_expired Date_parse currentDate (Req.expireDate pi)
  then (h, Normal tt) else
  let h :=
    match own department (object_at jobMap h) with
    | Some _ => h
    | None =>
        if inherited department then h
        else set_object jobMap (object_at jobMap h ++ [(department, [])]) h
    end in
  match own department (object_at jobMap h) with
  | Some _ =>
      (set_object jobMap
         (update department
            (fun arr => arr ++ [item_from jobRequisition pi loc])
            (object_at jobMap h)) h,
       Normal tt)
  | None =>
      (h, Throw (new_Error "jobMap[department].push is not a function"))
  end
  end end end.

(** [forEach] on the array as it is in the heap: the length is read once,
    the element of rank [k] at each turn; a missing element is passed
    over. *)
Fixpoint forEach_on (cb : Req.JobRequisition -> Heap -> Heap * completion unit)
    (k len : nat) (h : Heap) : Heap * completion unit :=
  match len with
  | O => (h, Normal tt)
  | S len' =>
      match nth_error (Req.jobRequisitions (argument h)) k with
      | None => forEach_on cb (S k) len' h
      | Some jobRequisition =>
          match cb jobRequisition h with
          | (h', Normal _) => forEach_on cb (S k) len' h'
          | (h', Throw e) => (h', Throw e)
          end
      end
  end.

(** Lines 112-154 on the heap: the heap after the call, and the reference
    returned or the error thrown. *)
Definition restructureOpenings_on (Date_parse : string -> option Z)
    (currentDate : Z) (h : Heap) : Heap * completion nat :=
  let '(h, jobMap) := new_object h in
  match
    forEach_on (callback_on Date_parse currentDate jobMap) 0
      (List.length (Req.jobRequisitions (argument h))) h
  with
  | (h', Normal _) => (h', Normal jobMap)
  | (h', Throw e) => (h', Throw e)
  end.

(** What a caller holds after the call: the object behind the reference
    returned, or the error. *)
Definition returned (h : Heap) (out : completion nat) : completion Opening :=
  match out with
  | Normal ref => Normal (object_at ref h)
  | Throw e => Throw e
  end.

Module Scenario.

(** An upstream whose total always runs ahead of the next offset. *)
Definition ever_growing : World :=
  {| token_endpoint := Sample.token_ok;
     listing_endpoint :=
       fun authorization skip => Normal (Sample.batch [] (skip + 21));
     clock := Sample.today |}.

(** Two pages: the first reports 30 records, the second 25. *)
Definition shrinking (authorization : string) (skip : Z)
  : completion Req.Requisition :=
  if skip =? 0 then Normal (Sample.batch (Sample.page_of 30 0) 30)
  else Normal (Sample.batch (Sample.page_of 25 20) 25).

Definition shrinking_upstream : World :=
  {| token_endpoint := Sample.token_ok;
     listing_endpoint := shrinking;
     clock := Sample.today |}.

(** A requisition with two more units, postings and locations behind the
    first ones. *)
Definition crowded : Req.JobRequisition :=
  {| Req.organizationalUnits :=
       [Sample.unit_named (Some "Sales"); Sample.unit_named (Some "All");
        Sample.unit_named None];
     Req.postingInstructions :=
       [Sample.posting None;
        Sample.posting (Some "2024-01-01T00:00:00.000Z")];
     Req.requisitionLocations := [Sample.new_york; Sample.new_york];
     Req.workerTypeCode :=
       Some {| Req.codeValue := None; Req.shortName := Some "Full Time" |};
     Req.links := [Sample.apply_link "https://a"] |}.

(** A requisition of Sales with no location. *)
Definition nowhere : Req.JobRequisition :=
  {| Req.organizationalUnits := [Sample.unit_named (Some "Sales")];
     Req.postingInstructions := [Sample.posting None];
     Req.requisitionLocations := [];
     Req.workerTypeCode := None;
     Req.links := [] |}.

(** An upstream with one page of the given records. *)
Definition one_page (rs : list Req.JobRequisition) : World :=
  {| token_endpoint := Sample.token_ok;
     listing_endpoint :=
       fun authorization skip =>
         Normal (Sample.batch rs (Z.of_nat (List.length rs)));
     clock := Sample.today |}.

(** What [crowded] is projected to. *)
Definition crowded_item : Opn.Item :=
  {| Opn.jobTitle := Some "Analyst";
     Opn.openingLink := "https://a";
     Opn.cityName := "New York";
     Opn.codeValue := "NY";
     Opn.countryCode := "US";
     Opn.workerTypeCode := "Full Time";
     Opn.expireDate := None |}.

(** A heap with the argument and one object from before the call. *)
Definition heap : Heap :=
  {| argument :=
       Sample.batch [Sample.requisition (Some "Sales") None;
                     Sample.requisition None None;
                     Sample.requisition (Some "Sales") None] 3;
     objects := [[("kept", [Sample.item None])]] |}.

(** For contrast, a callback that is not the route's: it empties the array
    it is iterating over. *)
Definition emptying (jobRequisition : Req.JobRequisition) (h : Heap)
  : Heap * completion unit :=
  ({| argument := Sample.batch [] 0; objects := objects h |}, Normal tt).

End Scenario.

(** * Properties *)

(** ** Objects as maps *)

Section ObjectFacts.

Context {V : Type}.
Implicit Types (o : Object' V) (k d : string).

Lemma own_app k o1 o2 :
  own k (o1 ++ o2) =
  match own k o1 with Some v => Some v | None => own k o2 end.
Proof.
  induction o1 as [|[k' v] o1 IH]; simpl; [reflexivity|].
  destruct (String.eqb k' k); [reflexivity | exact IH].
Qed.

Lemma own_update k d (f : V -> V) o :
  own k (update d f o) =
  if String.eqb d k then option_map f (own k o) else own k o.
Proof.
  induction o as [|[k' v] o IH]; simpl.
  - destruct (String.eqb d k); reflexivity.
  - destruct (String.eqb_spec k' d) as [->|Hkd]; simpl.
    + destruct (String.eqb d k); reflexivity.
    + destruct (String.eqb_spec k' k) as [->|Hk].
      * destruct (String.eqb_spec d k) as [->|_]; [congruence | reflexivity].
      * exact IH.
Qed.

Lemma names_update d (f : V -> V) o : map fst (update d f o) = map fst o.
Proof.
  induction o as [|[k' v] o IH]; simpl; [reflexivity|].
  destruct (String.eqb k' d); simpl; [reflexivity | now rewrite IH].
Qed.

Lemma own_None k o : own k o = None <-> ~ In k (map fst o).
Proof.
  induction o as [|[k' v] o IH]; simpl; [tauto|].
  destruct (String.eqb_spec k' k) as [->|Hk].
  - split; [discriminate | tauto].
  - rewrite IH. tauto.
Qed.

Lemma own_In k v o : own k o = Some v -> In (k, v) o.
Proof.
  induction o as [|[k' v'] o IH]; simpl; [discriminate|].
  destruct (String.eqb_spec k' k) as [->|Hk].
  - intros [= ->]. now left.
  - intros H. right. now apply IH.
Qed.

Lemma In_own k v o : NoDup (map fst o) -> In (k, v) o -> own k o = Some v.
Proof.
  induction o as [|[k' v'] o IH]; simpl; [tauto|].
  intros Hnd [[= -> ->]|Hin].
  - now rewrite String.eqb_refl.
  - inversion Hnd as [|? ? Hnot Hnd']; subst.
    destruct (String.eqb_spec k' k) as [->|Hk].
    + exfalso. apply Hnot. change k with (fst (k, v)). now apply in_map.
    + now apply IH.
Qed.

(** *** The enumeration order *)

Lemma insert_by_index_perm (e : string * V) l :
  Permutation (insert_by_index e l) (e :: l).
Proof.
  induction l as [|e' l IH]; simpl; [reflexivity|].
  destruct (index_of (fst e) <=? index_of (fst e'))%N; [reflexivity|].
  rewrite IH. apply perm_swap.
Qed.

Lemma sort_by_index_perm (l : list (string * V)) :
  Permutation (sort_by_index l) l.
Proof.
  induction l as [|e l IH]; simpl; [reflexivity|].
  rewrite insert_by_index_perm. now constructor.
Qed.

Lemma insert_by_index_sorted (e : string * V) l :
  Sorted (fun a b => by_index (fst a) (fst b)) l ->
  Sorted (fun a b => by_index (fst a) (fst b)) (insert_by_index e l).
Proof.
  unfold by_index.
  induction l as [|e' l IH]; simpl; intros Hs.
  - repeat constructor.
  - destruct (N.leb_spec (index_of (fst e)) (index_of (fst e'))) as [Hle|Hgt].
    + constructor; [assumption | now constructor].
    + inversion Hs as [|? ? Hs' Hhd]; subst.
      constructor; [now apply IH|].
      destruct l as [|e'' l]; simpl.
      * constructor. lia.
      * destruct (N.leb_spec (index_of (fst e)) (index_of (fst e''))).
        -- constructor. lia.
        -- inversion Hhd; subst. now constructor.
Qed.

Lemma sort_by_index_sorted (l : list (string * V)) :
  Sorted (fun a b => by_index (fst a) (fst b)) (sort_by_index l).
Proof.
  induction l as [|e l IH]; simpl; [constructor|].
  now apply insert_by_index_sorted.
Qed.

Lemma entries_perm o : Permutation (entries o) o.
Proof.
  unfold entries. rewrite sort_by_index_perm.
  induction o as [|e o IH]; simpl; [reflexivity|].
  destruct (is_index (fst e)); simpl.
  - now constructor.
  - symmetry. apply Permutation_cons_app. now symmetry.
Qed.

End ObjectFacts.

Lemma Sorted_map_fst {V : Type} (l : list (string * V)) :
  Sorted (fun a b => by_index (fst a) (fst b)) l ->
  StronglySorted by_index (map fst l).
Proof.
  intros Hs. apply Sorted_StronglySorted.
  - intros a b c. unfold by_index. lia.
  - induction Hs as [|e l Hs IH Hhd]; simpl; constructor; [assumption|].
    destruct Hhd; simpl; now constructor.
Qed.

(** An array index is named by one string only. *)
Lemma array_index_canonical k n :
  array_index k = Some n -> NilZero.string_of_uint (N.to_uint n) = k.
Proof.
  unfold array_index.
  destruct (NilZero.uint_of_string k) as [u|]; [|discriminate].
  destruct (String.eqb_spec
              (NilZero.string_of_uint (N.to_uint (N.of_uint u))) k)
    as [E|]; simpl; [|discriminate].
  destruct (N.of_uint u <=? 4294967294)%N; [|discriminate].
  now intros [= <-].
Qed.

Lemma index_of_inj a b :
  is_index a = true -> is_index b = true -> index_of a = index_of b -> a = b.
Proof.
  unfold is_index, index_of.
  destruct (array_index a) as [n|] eqn:Ea; [|discriminate].
  destruct (array_index b) as [m|] eqn:Eb; [|discriminate].
  intros _ _ ->.
  rewrite <- (array_index_canonical _ _ Ea).
  now rewrite <- (array_index_canonical _ _ Eb).
Qed.

(** ** Filing items without throwing *)

Lemma filter_none {A : Type} (f : A -> bool) (l : list A) :
  (forall x, In x l -> f x = false) -> filter f l = [].
Proof.
  induction l as [|x l IH]; intros H; simpl; [reflexivity|].
  rewrite (H x (or_introl eq_refl)). apply IH. intros y Hy. apply H. now right.
Qed.

Lemma existsb_eqb_In d (seen : list string) :
  existsb (String.eqb d) seen = true <-> In d seen.
Proof.
  rewrite existsb_exists. split.
  - intros (x & Hin & E). apply String.eqb_eq in E. now subst.
  - intros Hin. exists d. split; [assumption | apply String.eqb_refl].
Qed.

Lemma own_file_item k (jobMap : Opening) e :
  own k (file_item jobMap e) =
  if String.eqb (fst e) k then Some (nullish (own k jobMap) [] ++ [snd e])
  else own k jobMap.
Proof.
  destruct e as [d o]. unfold file_item. simpl.
  destruct (own d jobMap) as [arr|] eqn:Ed.
  - rewrite own_update.
    destruct (String.eqb_spec d k) as [->|_]; [|reflexivity].
    now rewrite Ed.
  - rewrite own_app. simpl.
    destruct (String.eqb_spec d k) as [->|_].
    + now rewrite Ed.
    + now destruct (own k jobMap).
Qed.

Lemma names_file_item (jobMap : Opening) e :
  map fst (file_item jobMap e) =
  if existsb (String.eqb (fst e)) (map fst jobMap) then map fst jobMap
  else map fst jobMap ++ [fst e].
Proof.
  destruct e as [d o]. unfold file_item. simpl.
  destruct (own d jobMap) as [arr|] eqn:Ed.
  - rewrite names_update.
    destruct (existsb (String.eqb d) (map fst jobMap)) eqn:Ex; [reflexivity|].
    exfalso. assert (Hin : ~ In d (map fst jobMap)).
    { intros Hin. apply existsb_eqb_In in Hin. congruence. }
    apply own_None in Hin. congruence.
  - apply own_None in Ed.
    destruct (existsb (String.eqb d) (map fst jobMap)) eqn:Ex.
    + apply existsb_eqb_In in Ex. contradiction.
    + now rewrite map_app.
Qed.

Lemma items_app (m1 m2 : Opening) : items (m1 ++ m2) = items m1 ++ items m2.
Proof. unfold items. apply flat_map_app. Qed.

Lemma items_update d o (jobMap : Opening) arr :
  own d jobMap = Some arr ->
  Permutation (items (update d (fun a => a ++ [o]) jobMap))
              (items jobMap ++ [(d, o)]).
Proof.
  induction jobMap as [|[k v] m IH]; simpl; [discriminate|].
  destruct (String.eqb_spec k d) as [->|Hk].
  - intros _. unfold items. simpl. rewrite map_app. simpl.
    rewrite <- !app_assoc. apply Permutation_app_head.
    apply Permutation_app_comm.
  - intros H. unfold items in *. simpl. rewrite <- app_assoc.
    apply Permutation_app_head. now apply IH.
Qed.

Lemma items_file_item (jobMap : Opening) e :
  Permutation (items (file_item jobMap e)) (items jobMap ++ [e]).
Proof.
  destruct e as [d o]. unfold file_item. simpl.
  destruct (own d jobMap) as [arr|] eqn:Ed.
  - eapply items_update; eassumption.
  - rewrite items_app. unfold items at 2. simpl. reflexivity.
Qed.

(** The array of a department after a run of filings: what it held, then
    the items filed under it, in filing order. *)
Lemma own_filed k es (jobMap : Opening) :
  own k (fold_left file_item es jobMap) =
  match map snd (filter (filed_under k) es) with
  | [] => own k jobMap
  | mine => Some (nullish (own k jobMap) [] ++ mine)
  end.
Proof.
  revert jobMap. induction es as [|e es IH]; intros jobMap; simpl;
    [reflexivity|].
  rewrite IH, own_file_item. unfold filed_under at 2.
  destruct (String.eqb (fst e) k); simpl; [|reflexivity].
  destruct (map snd (filter (filed_under k) es)); simpl.
  - reflexivity.
  - now rewrite <- app_assoc.
Qed.

Lemma first_seen_ext s1 s2 ds :
  (forall d, In d ds -> (In d s1 <-> In d s2)) ->
  first_seen s1 ds = first_seen s2 ds.
Proof.
  revert s1 s2. induction ds as [|d ds IH]; intros s1 s2 H; simpl;
    [reflexivity|].
  assert (E : existsb (String.eqb d) s1 = existsb (String.eqb d) s2).
  { apply eq_true_iff_eq. rewrite !existsb_eqb_In. apply H. now left. }
  rewrite E. destruct (existsb (String.eqb d) s2).
  - apply IH. intros x Hx. apply H. now right.
  - f_equal. apply IH. intros x Hx. simpl.
    specialize (H x (or_intror Hx)). tauto.
Qed.

(** The creation order after a run of filings: the names already there,
    then the new ones in order of first filing. *)
Lemma names_filed es (jobMap : Opening) :
  map fst (fold_left file_item es jobMap) =
  map fst jobMap ++ first_seen (map fst jobMap) (map fst es).
Proof.
  revert jobMap. induction es as [|e es IH]; intros jobMap; simpl.
  - now rewrite app_nil_r.
  - rewrite IH, names_file_item.
    destruct (existsb (String.eqb (fst e)) (map fst jobMap)); [reflexivity|].
    rewrite <- app_assoc. simpl. do 2 f_equal.
    apply first_seen_ext. intros d _. rewrite in_app_iff. simpl. tauto.
Qed.

Lemma items_filed es (jobMap : Opening) :
  Permutation (items (fold_left file_item es jobMap)) (items jobMap ++ es).
Proof.
  revert jobMap. induction es as [|e es IH]; intros jobMap; simpl.
  - now rewrite app_nil_r.
  - rewrite IH, items_file_item, <- app_assoc. reflexivity.
Qed.

Lemma first_seen_NoDup seen ds :
  NoDup (first_seen seen ds) /\
  forall d, In d (first_seen seen ds) <-> In d ds /\ ~ In d seen.
Proof.
  revert seen. induction ds as [|d ds IH]; intros seen; simpl.
  - split; [constructor | tauto].
  - destruct (existsb (String.eqb d) seen) eqn:Ex.
    + apply existsb_eqb_In in Ex. destruct (IH seen) as [Hnd Hin].
      split; [assumption|]. intros x. rewrite Hin.
      split; [tauto|]. intros [[->|Hx] Hn]; tauto.
    + assert (Hd : ~ In d seen).
      { intros Hd. apply existsb_eqb_In in Hd. congruence. }
      destruct (IH (d :: seen)) as [Hnd Hin]. split.
      * constructor; [|assumption]. rewrite Hin. simpl. tauto.
      * intros x. simpl. rewrite Hin. simpl.
        destruct (string_dec d x) as [->|Hne]; tauto.
Qed.

Lemma first_seen_filter (P : string -> bool) seen ds :
  filter P (first_seen seen ds) = first_seen seen (filter P ds).
Proof.
  revert seen. induction ds as [|d ds IH]; intros seen; simpl;
    [reflexivity|].
  destruct (P d) eqn:Pd; simpl.
  - destruct (existsb (String.eqb d) seen); [apply IH|].
    simpl. rewrite Pd. f_equal. apply IH.
  - destruct (existsb (String.eqb d) seen); [apply IH|].
    simpl. rewrite Pd, IH. apply first_seen_ext.
    intros x Hx. simpl. apply filter_In in Hx.
    split; [|tauto]. intros [->|H]; [|assumption].
    destruct Hx; congruence.
Qed.

(** ** The callback, case by case *)

Section TransformFacts.

Variable Date_parse : string -> option Z.
Variable now : Z.

Lemma callback_no_units jobMap r :
  Req.organizationalUnits r = [] ->
  callback Date_parse now jobMap r =
  Throw (new_Error "Cannot read properties of undefined (reading 'nameCode')").
Proof. intros H. unfold callback. now rewrite H. Qed.

Lemma callback_All jobMap r :
  department_of r = Some "All" ->
  callback Date_parse now jobMap r = Normal jobMap.
Proof.
  unfold department_of, callback.
  destruct (Req.organizationalUnits r) as [|ou ous]; [discriminate|].
  intros [= E]. simpl. now rewrite E.
Qed.

Lemma callback_no_postings jobMap r d :
  department_of r = Some d -> d <> "All" ->
  Req.postingInstructions r = [] ->
  callback Date_parse now jobMap r =
  Throw (new_Error "Cannot read properties of undefined (reading 'nameCode')").
Proof.
  unfold department_of, callback.
  destruct (Req.organizationalUnits r) as [|ou ous]; [discriminate|].
  intros [= <-] Hd Hp. simpl.
  destruct (String.eqb_spec
              (nullish (Req.shortName (Req.ou_nameCode ou)) "Others") "All");
    [contradiction|].
  now rewrite Hp.
Qed.

Lemma callback_no_locations jobMap r d :
  department_of r = Some d -> d <> "All" ->
  Req.postingInstructions r <> [] ->
  Req.requisitionLocations r = [] ->
  callback Date_parse now jobMap r =
  Throw (new_Error "Cannot read properties of undefined (reading 'address')").
Proof.
  unfold department_of, callback.
  destruct (Req.organizationalUnits r) as [|ou ous]; [discriminate|].
  intros [= <-] Hd Hp Hl. simpl.
  destruct (String.eqb_spec
              (nullish (Req.shortName (Req.ou_nameCode ou)) "Others") "All");
    [contradiction|].
  destruct (Req.postingInstructions r) as [|pi pis]; [contradiction|].
  now rewrite Hl.
Qed.

Lemma callback_expired jobMap r d :
  department_of r = Some d -> d <> "All" ->
  Req.postingInstructions r <> [] ->
  Req.requisitionLocations r <> [] ->
  is_expired Date_parse now (expireDate_of r) = true ->
  callback Date_parse now jobMap r = Normal jobMap.
Proof.
  unfold department_of, expireDate_of, callback.
  destruct (Req.organizationalUnits r) as [|ou ous]; [discriminate|].
  intros [= <-] Hd Hp Hl He. simpl.
  destruct (String.eqb_spec
              (nullish (Req.shortName (Req.ou_nameCode ou)) "Others") "All");
    [contradiction|].
  destruct (Req.postingInstructions r) as [|pi pis]; [contradiction|].
  destruct (Req.requisitionLocations r) as [|loc locs]; [contradiction|].
  simpl. now rewrite He.
Qed.

Lemma callback_files jobMap r d pi pis loc locs :
  department_of r = Some d -> d <> "All" ->
  Req.postingInstructions r = pi :: pis ->
  Req.requisitionLocations r = loc :: locs ->
  is_expired Date_parse now (Req.expireDate pi) = false ->
  callback Date_parse now jobMap r =
  push_opening d
    {| Opn.jobTitle := Req.codeValue (Req.pi_nameCode pi);
       Opn.openingLink :=
         match find is_career_center (Req.links r) with
         | Some link => nullish (Req.href link) ""
         | None => ""
         end;
       Opn.cityName := Req.cityName (Req.address loc);
       Opn.codeValue :=
         match Req.countrySubdivisionLevel1 (Req.address loc) with
         | Some sub => nullish (Req.codeValue sub) ""
         | None => ""
         end;
       Opn.countryCode := Req.countryCode (Req.address loc);
       Opn.workerTypeCode :=
         match Req.workerTypeCode r with
         | Some w => nullish (Req.shortName w) ""
         | None => ""
         end;
       Opn.expireDate := Req.expireDate pi |}
    jobMap.
Proof.
  unfold department_of, callback.
  destruct (Req.organizationalUnits r) as [|ou ous]; [discriminate|].
  intros [= <-] Hd Hp Hl He. simpl.
  destruct (String.eqb_spec
              (nullish (Req.shortName (Req.ou_nameCode ou)) "Others") "All");
    [contradiction|].
  rewrite Hp, Hl. simpl. now rewrite He.
Qed.

Lemma callback_verdict r : verdict Date_parse now r.
Proof.
  destruct (Req.organizationalUnits r) as [|ou ous] eqn:Hou.
  { eapply Throws; [|intros m; now rewrite callback_no_units]. reflexivity. }
  assert (Hd : department_of r =
               Some (nullish (Req.shortName (Req.ou_nameCode ou)) "Others")).
  { unfold department_of. now rewrite Hou. }
  set (d := nullish (Req.shortName (Req.ou_nameCode ou)) "Others") in *.
  destruct (string_dec d "All") as [E|NE].
  { apply Skips. intros m. apply callback_All. now rewrite Hd, E. }
  destruct (Req.postingInstructions r) as [|pi pis] eqn:Hp.
  { eapply Throws; [|intros m; now apply (callback_no_postings m r d)].
    reflexivity. }
  destruct (Req.requisitionLocations r) as [|loc locs] eqn:Hl.
  { eapply Throws; [|intros m; apply (callback_no_locations m r d);
                      auto; now rewrite Hp].
    reflexivity. }
  destruct (is_expired Date_parse now (Req.expireDate pi)) eqn:He.
  { apply Skips. intros m. apply (callback_expired m r d); auto.
    - now rewrite Hp.
    - now rewrite Hl.
    - unfold expireDate_of. now rewrite Hp. }
  eapply (Files Date_parse now r d); auto.
  - unfold expireDate_of. now rewrite Hp.
  - shelve.
  - intros m. now apply (callback_files m r d pi pis loc locs).
  Unshelve. reflexivity.
Qed.

Lemma push_opening_Normal d o (jobMap jobMap' : Opening) :
  no_inherited jobMap ->
  push_opening d o jobMap = Normal jobMap' ->
  inherited d = false /\ jobMap' = file_item jobMap (d, o)
  /\ no_inherited jobMap'.
Proof.
  unfold push_opening, file_item, no_inherited. simpl. intros Hwf.
  destruct (own d jobMap) as [arr|] eqn:Ed.
  - intros [= <-]. rewrite names_update. repeat split; [|assumption].
    rewrite Forall_forall in Hwf. apply Hwf.
    apply own_In in Ed. change d with (fst (d, arr)). now apply in_map.
  - destruct (inherited d) eqn:Hi; [discriminate|].
    intros [= <-]. repeat split.
    rewrite map_app. apply Forall_app. split; [assumption|].
    now repeat constructor.
Qed.

Lemma produced_files r d o :
  (forall jobMap, callback Date_parse now jobMap r = push_opening d o jobMap) ->
  produced Date_parse now r = if inherited d then [] else [(d, o)].
Proof.
  intros H. unfold produced. rewrite H. unfold push_opening. simpl.
  now destruct (inherited d).
Qed.

Lemma produced_skips r :
  (forall jobMap, callback Date_parse now jobMap r = Normal jobMap) ->
  produced Date_parse now r = [].
Proof. intros H. unfold produced. now rewrite H. Qed.

(** A record files nothing, or the one item of a department other than
    "All" and with no expire date in the past. *)
Lemma produced_cases r :
  produced Date_parse now r = [] \/
  exists d o,
    produced Date_parse now r = [(d, o)] /\
    department_of r = Some d /\ d <> "All" /\
    is_expired Date_parse now (expireDate_of r) = false /\
    (forall jobMap, callback Date_parse now jobMap r = push_opening d o jobMap).
Proof.
  destruct (callback_verdict r) as [e _ H|H|d o Hd Hn He _ H].
  - left. unfold produced. now rewrite H.
  - left. now apply produced_skips.
  - rewrite (produced_files r d o H).
    destruct (inherited d); [now left|].
    right. exists d, o. auto.
Qed.

Lemma callback_Normal jobMap jobMap' r :
  no_inherited jobMap ->
  callback Date_parse now jobMap r = Normal jobMap' ->
  jobMap' = fold_left file_item (produced Date_parse now r) jobMap
  /\ no_inherited jobMap'.
Proof.
  intros Hwf Hrun.
  destruct (callback_verdict r) as [e _ H|H|d o _ _ _ _ H].
  - rewrite H in Hrun. discriminate.
  - rewrite (produced_skips r H). rewrite H in Hrun.
    injection Hrun as <-. now split.
  - rewrite H in Hrun.
    destruct (push_opening_Normal _ _ _ _ Hwf Hrun) as (Hi & -> & Hwf').
    rewrite (produced_files r d o H), Hi. now split.
Qed.

Lemma forEach_app {A S : Type} (f : S -> A -> completion S) l1 l2 s :
  forEach f (l1 ++ l2) s = s' <- forEach f l1 s ;; forEach f l2 s'.
Proof.
  revert s. induction l1 as [|x l1 IH]; intros s; simpl; [reflexivity|].
  destruct (f s x); simpl; [apply IH | reflexivity].
Qed.

Lemma forEach_Normal rs jobMap jobMap' :
  no_inherited jobMap ->
  forEach (callback Date_parse now) rs jobMap = Normal jobMap' ->
  jobMap' = fold_left file_item (flat_map (produced Date_parse now) rs) jobMap
  /\ no_inherited jobMap'.
Proof.
  revert jobMap. induction rs as [|r rs IH]; intros jobMap Hwf; simpl.
  - intros [= <-]. now split.
  - destruct (callback Date_parse now jobMap r) as [m1|e] eqn:Hr; simpl;
      [|discriminate].
    destruct (callback_Normal _ _ _ Hwf Hr) as [-> Hwf1].
    intros Hrest. rewrite fold_left_app. now apply IH.
Qed.

(** A map returned by the transform is the filing, in input order, of what
    each record produces. *)
Lemma restructureOpenings_Normal openings jobMap :
  restructureOpenings Date_parse now openings = Normal jobMap ->
  jobMap = fold_left file_item
             (flat_map (produced Date_parse now) (Req.jobRequisitions openings))
             [].
Proof.
  intros H. apply forEach_Normal in H; [tauto | constructor].
Qed.

(** A record on which the callback throws makes the whole iteration
    throw. *)
Lemma forEach_Throw rs r :
  In r rs ->
  (exists e, response e = None /\
             forall jobMap, callback Date_parse now jobMap r = Throw e) ->
  forall jobMap,
  exists e, forEach (callback Date_parse now) rs jobMap = Throw e /\
            response e = None.
Proof.
  intros Hin (e & He & Hr).
  induction rs as [|r' rs IH]; [contradiction|]. intros jobMap. simpl.
  destruct (callback_verdict r') as [e' He' H|H|d o _ _ _ _ H].
  - rewrite H. simpl. eauto.
  - destruct Hin as [->|Hin].
    + rewrite Hr. simpl. eauto.
    + rewrite H. simpl. now apply IH.
  - destruct Hin as [->|Hin].
    + rewrite Hr. simpl. eauto.
    + rewrite H. unfold push_opening.
      destruct (own d jobMap); simpl; [now apply IH|].
      destruct (inherited d); simpl; [|now apply IH].
      eexists. split; reflexivity.
Qed.

(** Every throw of the transform is a plain error without a [response]. *)
Lemma restructureOpenings_Throw openings e :
  restructureOpenings Date_parse now openings = Throw e -> response e = None.
Proof.
  unfold restructureOpenings. generalize (@nil (string * list Opn.Item)).
  induction (Req.jobRequisitions openings) as [|r rs IH]; intros m; simpl;
    [discriminate|].
  destruct (callback_verdict r) as [e' He' H|H|d o _ _ _ _ H]; rewrite H.
  - simpl. now intros [= <-].
  - simpl. apply IH.
  - unfold push_opening. destruct (own d m); simpl; [apply IH|].
    destruct (inherited d); simpl; [|apply IH]. now intros [= <-].
Qed.

End TransformFacts.

(** ** The making of responses *)

Lemma NextResponse_json_accepts b s :
  200 <= s <= 599 -> null_body_status s = false ->
  NextResponse_json b s = Responds {| body := b; http_status := s |}.
Proof.
  intros Hs Hnull. unfold NextResponse_json, unsigned_short.
  rewrite Z.mod_small by lia. rewrite Hnull.
  destruct (Z.ltb_spec s 200); [lia|].
  destruct (Z.ltb_spec 599 s); [lia|]. reflexivity.
Qed.

Lemma NextResponse_json_range b s :
  599 < s < 65536 ->
  NextResponse_json b s = Rejects (RangeError_status s).
Proof.
  intros Hs. unfold NextResponse_json, unsigned_short.
  rewrite Z.mod_small by lia.
  destruct (Z.ltb_spec s 200); [reflexivity|].
  destruct (Z.ltb_spec 599 s); [reflexivity | lia].
Qed.

Lemma NextResponse_json_null_body b s :
  200 <= s <= 599 -> null_body_status s = true ->
  NextResponse_json b s = Rejects (TypeError_null_body s).
Proof.
  intros Hs Hnull. unfold NextResponse_json, unsigned_short.
  rewrite Z.mod_small by lia. rewrite Hnull.
  destruct (Z.ltb_spec s 200); [lia|].
  destruct (Z.ltb_spec 599 s); [lia|]. reflexivity.
Qed.

(** A response that is made has the body given, and a status that may
    carry one. *)
Lemma NextResponse_json_Responds b s answer :
  NextResponse_json b s = Responds answer ->
  body answer = b /\ http_status answer = unsigned_short s /\
  200 <= http_status answer <= 599 /\
  null_body_status (http_status answer) = false.
Proof.
  unfold NextResponse_json.
  destruct (Z.ltb_spec (unsigned_short s) 200); [discriminate|].
  destruct (Z.ltb_spec 599 (unsigned_short s)); [discriminate|]. simpl.
  destruct (null_body_status (unsigned_short s)) eqn:Hnull; [discriminate|].
  intros [= <-]. simpl. repeat split; try assumption; lia.
Qed.

Lemma error_response_plain e :
  response e = None ->
  error_response e =
  Responds {| body := Json_error (message e); http_status := 500 |}.
Proof.
  intros H. unfold error_response, status_or_500. rewrite H.
  now apply NextResponse_json_accepts.
Qed.

(** ** What the transform keeps and drops *)

Section TransformClaims.

Variable Date_parse : string -> option Z.
Variable now : Z.


Lemma is_expired_past pi s t :
  Req.expireDate pi = Some s -> s <> "" ->
  Date_parse s = Some t -> t < now ->
  is_expired Date_parse now (Req.expireDate pi) = true.
Proof.
  intros -> Hs Ht Hlt. unfold is_expired.
  destruct (String.eqb_spec s ""); [contradiction|].
  rewrite Ht. now apply Z.ltb_lt.
Qed.

(** A record with an expire date in the past never reaches the push. *)
Lemma expired_verdict r :
  is_expired Date_parse now (expireDate_of r) = true ->
  (exists e, response e = None /\
             forall jobMap, callback Date_parse now jobMap r = Throw e)
  \/ (forall jobMap, callback Date_parse now jobMap r = Normal jobMap).
Proof.
  intros He.
  destruct (callback_verdict Date_parse now r) as [e Hn H|H|d o _ _ Hf _ _];
    [left; eauto | now right | congruence].
Qed.

Lemma restructureOpenings_drop rs1 r rs2 mt :
  (forall jobMap, callback Date_parse now jobMap r = Normal jobMap) ->
  restructureOpenings Date_parse now
    {| Req.jobRequisitions := rs1 ++ r :: rs2; Req.meta := mt |} =
  restructureOpenings Date_parse now
    {| Req.jobRequisitions := rs1 ++ rs2; Req.meta := mt |}.
Proof.
  intros H. unfold restructureOpenings. simpl. rewrite !forEach_app.
  destruct (forEach (callback Date_parse now) rs1 []); simpl;
    [now rewrite H | reflexivity].
Qed.

Lemma produced_department rs e :
  In e (flat_map (produced Date_parse now) rs) ->
  exists r, In r rs /\ produced Date_parse now r = [e] /\
            department_of r = Some (fst e) /\ fst e <> "All" /\
            is_expired Date_parse now (expireDate_of r) = false.
Proof.
  intros Hin. apply in_flat_map in Hin. destruct Hin as (r & Hr & He).
  exists r. split; [assumption|].
  destruct (produced_cases Date_parse now r)
    as [E|(d & o & E & Hd & Hn & Hx & _)];
    rewrite E in He; simpl in He; [contradiction|].
  destruct He as [<-|[]]. simpl. auto.
Qed.

Lemma find_career_center_first pre l post :
  Forall (fun x => Req.title x <> Some career_center) pre ->
  Req.title l = Some career_center ->
  find is_career_center (pre ++ l :: post) = Some l.
Proof.
  intros Hpre Hl. induction Hpre as [|x pre Hx _ IH]; simpl.
  - unfold is_career_center. rewrite Hl. now rewrite String.eqb_refl.
  - unfold is_career_center at 1. destruct (Req.title x) as [t|]; [|exact IH].
    destruct (String.eqb_spec t career_center); [congruence | exact IH].
Qed.

Lemma find_career_center_none ls :
  (forall l, In l ls -> Req.title l <> Some career_center) ->
  find is_career_center ls = None.
Proof.
  intros H. induction ls as [|x ls IH]; simpl; [reflexivity|].
  unfold is_career_center at 1.
  assert (Hx := H x (or_introl eq_refl)).
  destruct (Req.title x) as [t|].
  - destruct (String.eqb_spec t career_center); [congruence|].
    apply IH. intros l Hl. apply H. now right.
  - apply IH. intros l Hl. apply H. now right.
Qed.

(** C3: a requisition whose first posting instruction has an expire date
    strictly before the current date files no item, whatever the map holds:
    the callback leaves the map as it was or throws, and a returned output
    is the one the input without that record gives.  A requisition with no
    expire date is never counted as expired: when its department is not
    "All" and its first posting instruction and location exist, the
    callback goes on to the push, with the date left absent. *)
Theorem expired_requisition_files_nothing r :
  (forall pi pis s t,
      Req.postingInstructions r = pi :: pis ->
      Req.expireDate pi = Some s -> s <> "" ->
      Date_parse s = Some t -> t < now ->
      produced Date_parse now r = [] /\
      (forall jobMap jobMap',
          callback Date_parse now jobMap r = Normal jobMap' ->
          jobMap' = jobMap) /\
      (forall rs1 rs2 mt jobMap,
          restructureOpenings Date_parse now
            {| Req.jobRequisitions := rs1 ++ r :: rs2; Req.meta := mt |}
          = Normal jobMap ->
          restructureOpenings Date_parse now
            {| Req.jobRequisitions := rs1 ++ rs2; Req.meta := mt |}
          = Normal jobMap))
  /\
  (expireDate_of r = None ->
      is_expired Date_parse now (expireDate_of r) = false /\
      (forall d pi pis loc locs jobMap,
          department_of r = Some d -> d <> "All" ->
          Req.postingInstructions r = pi :: pis ->
          Req.requisitionLocations r = loc :: locs ->
          exists o,
            callback Date_parse now jobMap r = push_opening d o jobMap /\
            Opn.expireDate o = None)).
Proof.
  split.
  - intros pi pis s t Hp Hs Hne Ht Hlt.
    assert (He : is_expired Date_parse now (expireDate_of r) = true).
    { unfold expireDate_of. rewrite Hp. eapply is_expired_past; eassumption. }
    destruct (expired_verdict r He) as [(e & _ & H)|H].
    + split; [unfold produced; now rewrite H|].
      split; [intros m m'; rewrite H; discriminate|].
      intros rs1 rs2 mt m. unfold restructureOpenings. simpl.
      rewrite forEach_app.
      destruct (forEach (callback Date_parse now) rs1 []); simpl;
        [rewrite H|]; discriminate.
    + split; [now apply produced_skips|].
      split; [intros m m'; rewrite H; congruence|].
      intros rs1 rs2 mt m.
      now rewrite (restructureOpenings_drop rs1 r rs2 mt H).
  - intros Hnone. rewrite Hnone. split; [reflexivity|].
    intros d pi pis loc locs m Hd Hn Hp Hl.
    assert (Hdate : Req.expireDate pi = None).
    { unfold expireDate_of in Hnone. now rewrite Hp in Hnone. }
    eexists. split.
    + apply (callback_files Date_parse now m r d pi pis loc locs); auto.
      now rewrite Hdate.
    + exact Hdate.
Qed.

(** C4: a requisition whose department is "All", compared exactly, is
    passed over without reading anything else of it: the output is the one
    the input without that record gives.  In a returned map no item is
    filed under "All"; the items of the map are, one for one, the items
    produced by the input records; a record produces at most one item, and
    only when its department is not "All" and its expire date is not in
    the past. *)
Theorem all_department_is_passed_over :
  (forall r,
      department_of r = Some "All" ->
      produced Date_parse now r = [] /\
      (forall jobMap, callback Date_parse now jobMap r = Normal jobMap) /\
      (forall rs1 rs2 mt,
          restructureOpenings Date_parse now
            {| Req.jobRequisitions := rs1 ++ r :: rs2; Req.meta := mt |} =
          restructureOpenings Date_parse now
            {| Req.jobRequisitions := rs1 ++ rs2; Req.meta := mt |}))
  /\
  (forall openings jobMap,
      restructureOpenings Date_parse now openings = Normal jobMap ->
      own "All" jobMap = None /\
      Permutation (items jobMap)
        (flat_map (produced Date_parse now) (Req.jobRequisitions openings)) /\
      (forall r,
          In r (Req.jobRequisitions openings) ->
          produced Date_parse now r = [] \/
          exists d o,
            produced Date_parse now r = [(d, o)] /\
            department_of r = Some d /\ d <> "All" /\
            is_expired Date_parse now (expireDate_of r) = false)).
Proof.
  split.
  - intros r HAll.
    assert (H : forall m, callback Date_parse now m r = Normal m)
      by (intros m; now apply callback_All).
    split; [now apply produced_skips|]. split; [exact H|].
    intros rs1 rs2 mt. now apply restructureOpenings_drop.
  - intros openings jobMap Hrun.
    apply restructureOpenings_Normal in Hrun. subst jobMap.
    split; [|split].
    + rewrite own_filed. simpl.
      replace (filter (filed_under "All")
                 (flat_map (produced Date_parse now)
                    (Req.jobRequisitions openings)))
        with (@nil (string * Opn.Item)); [reflexivity|].
      symmetry. apply filter_none. intros e He.
      apply produced_department in He.
      destruct He as (_ & _ & _ & _ & Hne & _).
      unfold filed_under. now destruct (String.eqb_spec (fst e) "All").
    + apply (items_filed _ []).
    + intros r _.
      destruct (produced_cases Date_parse now r)
        as [E|(d & o & E & Hd & Hn & Hx & _)]; [now left|].
      right. exists d, o. auto.
Qed.

(** C5: the first elements are read with no emptiness guard.  An input with
    a record whose [organizationalUnits] is empty, or whose department is
    not "All" and whose [postingInstructions] or [requisitionLocations] is
    empty, makes the callback throw on that record and the transform throw
    as a whole; the handler then answers with an error body and status
    500, not with openings. *)
Theorem empty_array_fails_the_request openings r :
  In r (Req.jobRequisitions openings) ->
  (Req.organizationalUnits r = [] \/
   exists d, department_of r = Some d /\ d <> "All" /\
             (Req.postingInstructions r = [] \/
              Req.requisitionLocations r = [])) ->
  (exists e, response e = None /\
             forall jobMap, callback Date_parse now jobMap r = Throw e) /\
  (exists e, restructureOpenings Date_parse now openings = Throw e /\
             response e = None) /\
  (forall w fuel sent,
      clock w = now ->
      fetchJobRequisitions w fuel = (sent, Some (Normal openings)) ->
      exists msg,
        GET Date_parse w fuel =
        (sent,
         Some (Responds {| body := Json_error msg; http_status := 500 |}))).
Proof.
  intros Hin Hbad.
  assert (Hr : exists e, response e = None /\
                 forall jobMap, callback Date_parse now jobMap r = Throw e).
  { destruct Hbad as [Hou|(d & Hd & Hn & [Hp|Hl])].
    - eexists. split; [|intros m; now apply callback_no_units]. reflexivity.
    - eexists. split; [|intros m; now apply (callback_no_postings _ _ m r d)].
      reflexivity.
    - destruct (Req.postingInstructions r) as [|pi pis] eqn:Hp.
      + eexists. split;
          [|intros m; now apply (callback_no_postings _ _ m r d)].
        reflexivity.
      + eexists. split;
          [|intros m; apply (callback_no_locations _ _ m r d); auto;
            now rewrite Hp].
        reflexivity. }
  split; [exact Hr|].
  destruct (forEach_Throw Date_parse now _ r Hin Hr []) as (e & He & Hresp).
  split; [exists e; split; assumption|].
  intros w fuel sent Hclock Hfetch. exists (message e).
  unfold GET. rewrite Hfetch, Hclock.
  unfold restructureOpenings. rewrite He.
  now rewrite (error_response_plain e Hresp).
Qed.


(** C8: when a requisition produces an item, its [openingLink] is the
    [href] of the first link, in input order, whose title is exactly
    "HL External Career Center" (the empty string should that link have no
    [href]), and the empty string when no link has that title. *)
Theorem opening_link_is_first_career_center r jobMap jobMap' :
  callback Date_parse now jobMap r = Normal jobMap' ->
  jobMap' <> jobMap ->
  exists d o,
    push_opening d o jobMap = Normal jobMap' /\
    (forall pre l post,
        Req.links r = pre ++ l :: post ->
        Forall (fun x => Req.title x <> Some career_center) pre ->
        Req.title l = Some career_center ->
        Opn.openingLink o = nullish (Req.href l) "" /\
        (forall h, Req.href l = Some h -> Opn.openingLink o = h)) /\
    ((forall l, In l (Req.links r) -> Req.title l <> Some career_center) ->
     Opn.openingLink o = "").
Proof.
  intros Hrun Hchg.
  destruct (callback_verdict Date_parse now r) as [e _ H|H|d o _ _ _ Hlink H];
    rewrite H in Hrun.
  - discriminate.
  - congruence.
  - exists d, o. split; [exact Hrun|]. split.
    + intros pre l post Hls Hpre Hl.
      rewrite Hlink, Hls, (find_career_center_first pre l post Hpre Hl).
      split; [reflexivity|]. now intros h ->.
    + intros Hnone. now rewrite Hlink, (find_career_center_none _ Hnone).
Qed.

End TransformClaims.

(** ** The order of the output *)

Lemma map_fst_filter {V : Type} (P : string -> bool) (l : list (string * V)) :
  map fst (filter (fun e => P (fst e)) l) = filter P (map fst l).
Proof.
  induction l as [|e l IH]; simpl; [reflexivity|].
  destruct (P (fst e)); simpl; now rewrite IH.
Qed.

Lemma strictly_by_index l :
  StronglySorted by_index l -> NoDup l ->
  Forall (fun d => is_index d = true) l ->
  StronglySorted (fun a b => (index_of a < index_of b)%N) l.
Proof.
  induction 1 as [|a l Hs IH Hall]; intros Hnd Hidx; constructor.
  - apply IH; [now inversion Hnd | now inversion Hidx].
  - inversion Hnd as [|? ? Hnot _]; subst.
    inversion Hidx as [|? ? Ha Hl]; subst.
    rewrite Forall_forall in *. intros b Hb.
    specialize (Hall b Hb). unfold by_index in Hall.
    assert (index_of a <> index_of b).
    { intros E. apply Hnot. now rewrite (index_of_inj a b Ha (Hl b Hb) E). }
    lia.
Qed.

Section OrderClaims.

Variable Date_parse : string -> option Z.
Variable now : Z.

(** C9 as amended: the department keys that are array indices come first,
    in ascending numeric order; the other keys follow in the order in which
    the input first files under them; each department's array holds the
    items filed under it, in input order, none dropped, none merged in from
    another department.  With no array-index name among the departments,
    the keys are in first-encounter order throughout. *)
Theorem department_order openings jobMap :
  restructureOpenings Date_parse now openings = Normal jobMap ->
  exists indexed,
    keys jobMap =
      indexed ++
      first_seen []
        (filter (fun d => negb (is_index d))
           (map fst (flat_map (produced Date_parse now)
                       (Req.jobRequisitions openings)))) /\
    StronglySorted (fun a b => (index_of a < index_of b)%N) indexed /\
    (forall d,
        In d indexed <->
        is_index d = true /\
        In d (map fst (flat_map (produced Date_parse now)
                         (Req.jobRequisitions openings)))) /\
    (forall d arr,
        In (d, arr) (entries jobMap) ->
        arr <> [] /\
        arr = map snd
                (filter (filed_under d)
                   (flat_map (produced Date_parse now)
                      (Req.jobRequisitions openings)))) /\
    ((forall d,
         In d (map fst (flat_map (produced Date_parse now)
                          (Req.jobRequisitions openings))) ->
         is_index d = false) ->
     keys jobMap =
       first_seen []
         (map fst (flat_map (produced Date_parse now)
                     (Req.jobRequisitions openings)))).
Proof.
  intros Hrun. apply restructureOpenings_Normal in Hrun.
  set (filed := flat_map (produced Date_parse now)
                  (Req.jobRequisitions openings)) in *.
  assert (Hnames : map fst jobMap = first_seen [] (map fst filed)).
  { subst jobMap. now rewrite names_filed. }
  destruct (first_seen_NoDup [] (map fst filed)) as [Hnd Hmem].
  rewrite <- Hnames in Hnd, Hmem.
  set (idx := fun e : string * list Opn.Item => is_index (fst e)).
  assert (Hperm : Permutation (map fst (sort_by_index (filter idx jobMap)))
                              (filter is_index (map fst jobMap))).
  { rewrite <- (map_fst_filter is_index). apply Permutation_map.
    apply sort_by_index_perm. }
  assert (Hin : forall d, In d (map fst (sort_by_index (filter idx jobMap)))
                          <-> is_index d = true /\ In d (map fst filed)).
  { intros d. split.
    - intros H. apply (Permutation_in _ Hperm) in H.
      apply filter_In in H. rewrite Hmem in H. tauto.
    - intros [Hi Hd]. apply (Permutation_in _ (Permutation_sym Hperm)).
      apply filter_In. rewrite Hmem. tauto. }
  assert (Hkeys : keys jobMap =
            map fst (sort_by_index (filter idx jobMap)) ++
            first_seen []
              (filter (fun d => negb (is_index d)) (map fst filed))).
  { unfold keys, entries. rewrite map_app. f_equal.
    rewrite (map_fst_filter (fun d => negb (is_index d))), Hnames.
    apply first_seen_filter. }
  exists (map fst (sort_by_index (filter idx jobMap))).
  split; [exact Hkeys|]. split; [|split; [exact Hin|split]].
  - apply strictly_by_index.
    + apply Sorted_map_fst, sort_by_index_sorted.
    + apply (Permutation_NoDup (Permutation_sym Hperm)).
      now apply NoDup_filter.
    + apply Forall_forall. intros d Hd. now apply Hin in Hd.
  - intros d arr Hd.
    apply (Permutation_in _ (entries_perm jobMap)) in Hd.
    apply (In_own _ _ _ Hnd) in Hd. subst jobMap.
    rewrite own_filed in Hd. simpl in Hd.
    destruct (map snd (filter (filed_under d) filed)) as [|o os];
      [discriminate|].
    injection Hd as <-. split; [discriminate | reflexivity].
  - intros Hnone. rewrite Hkeys.
    replace (map fst (sort_by_index (filter idx jobMap)))
      with (@nil string).
    + simpl. f_equal. clear -Hnone.
      induction (map fst filed) as [|d ds IH]; simpl; [reflexivity|].
      rewrite (Hnone d (or_introl eq_refl)). simpl. f_equal.
      apply IH. intros x Hx. apply Hnone. now right.
    + symmetry.
      destruct (map fst (sort_by_index (filter idx jobMap))) as [|d ds];
        [reflexivity|].
      destruct (proj1 (Hin d) (or_introl eq_refl)) as [Hi Hd].
      rewrite (Hnone d Hd) in Hi. discriminate.
Qed.

(** *** The heap *)

Lemma replace_nth_length {A : Type} n (x : A) l :
  List.length (replace_nth n x l) = List.length l.
Proof.
  revert n. induction l as [|y l IH]; intros [|n]; simpl; auto.
Qed.

Lemma nth_replace_nth_eq {A : Type} n (x d : A) l :
  (n < List.length l)%nat -> nth n (replace_nth n x l) d = x.
Proof.
  revert n. induction l as [|y l IH]; intros [|n] H; simpl in *;
    try lia; [reflexivity|]. apply IH. lia.
Qed.

Lemma nth_replace_nth_ne {A : Type} n m (x d : A) l :
  n <> m -> nth m (replace_nth n x l) d = nth m l d.
Proof.
  revert n m. induction l as [|y l IH]; intros [|n] [|m] H; simpl;
    try reflexivity; try congruence. apply IH. congruence.
Qed.

Lemma update_created d (f : list Opn.Item -> list Opn.Item) v (o : Opening) :
  own d o = None -> update d f (o ++ [(d, v)]) = o ++ [(d, f v)].
Proof.
  induction o as [|[k a] o IH]; simpl.
  - intros _. now rewrite String.eqb_refl.
  - destruct (String.eqb_spec k d); [discriminate|].
    intros H. now rewrite IH.
Qed.

Lemma object_at_set_eq ref o h :
  (ref < List.length (objects h))%nat ->
  object_at ref (set_object ref o h) = o.
Proof. intros H. unfold object_at. simpl. now apply nth_replace_nth_eq. Qed.

Lemma object_at_set_ne ref ref' o h :
  ref <> ref' -> object_at ref' (set_object ref o h) = object_at ref' h.
Proof. intros H. unfold object_at. simpl. now apply nth_replace_nth_ne. Qed.

Lemma objects_set_length ref o h :
  List.length (objects (set_object ref o h)) = List.length (objects h).
Proof. simpl. apply replace_nth_length. Qed.

(** What the heap callback does to the heap: nothing to the argument,
    nothing to any object but the one behind [jobMap], and to that one what
    the callback on maps does. *)
Lemma callback_on_spec jobMap r h :
  (jobMap < List.length (objects h))%nat ->
  argument (fst (callback_on Date_parse now jobMap r h)) = argument h /\
  List.length (objects (fst (callback_on Date_parse now jobMap r h))) =
    List.length (objects h) /\
  (forall ref, ref <> jobMap ->
     object_at ref (fst (callback_on Date_parse now jobMap r h)) =
     object_at ref h) /\
  match snd (callback_on Date_parse now jobMap r h) with
  | Normal _ =>
      callback Date_parse now (object_at jobMap h) r =
      Normal (object_at jobMap (fst (callback_on Date_parse now jobMap r h)))
  | Throw e => callback Date_parse now (object_at jobMap h) r = Throw e
  end.
Proof.
  intros Hin. unfold callback_on.
  destruct (Req.organizationalUnits r) as [|ou ous] eqn:Hou; simpl.
  { repeat split. now rewrite callback_no_units. }
  assert (Hd : department_of r =
               Some (nullish (Req.shortName (Req.ou_nameCode ou)) "Others")).
  { unfold department_of. now rewrite Hou. }
  set (d := nullish (Req.shortName (Req.ou_nameCode ou)) "Others") in *.
  destruct (String.eqb_spec d "All") as [E|NE]; simpl.
  { repeat split. apply callback_All. now rewrite Hd, E. }
  destruct (Req.postingInstructions r) as [|pi pis] eqn:Hp; simpl.
  { repeat split. now rewrite (callback_no_postings _ _ _ r d). }
  destruct (Req.requisitionLocations r) as [|loc locs] eqn:Hl; simpl.
  { repeat split. rewrite (callback_no_locations _ _ _ r d); auto.
    now rewrite Hp. }
  destruct (is_expired Date_parse now (Req.expireDate pi)) eqn:He; simpl.
  { repeat split. apply (callback_expired _ _ _ r d); auto.
    - now rewrite Hp.
    - now rewrite Hl.
    - unfold expireDate_of. now rewrite Hp. }
  rewrite (callback_files _ _ _ r d pi pis loc locs); auto.
  change {| Opn.jobTitle := Req.codeValue (Req.pi_nameCode pi);
            Opn.openingLink := _; Opn.cityName := _; Opn.codeValue := _;
            Opn.countryCode := _; Opn.workerTypeCode := _;
            Opn.expireDate := _ |} with (item_from r pi loc).
  unfold push_opening.
  destruct (own d (object_at jobMap h)) as [arr|] eqn:Hown.
  - rewrite Hown. cbn [fst snd].
    split; [reflexivity|]. split; [apply objects_set_length|]. split.
    + intros ref Hne. apply object_at_set_ne. congruence.
    + now rewrite object_at_set_eq.
  - destruct (inherited d) eqn:Hinh.
    + rewrite Hown. cbn [fst snd]. now repeat split.
    + rewrite (object_at_set_eq jobMap _ h Hin), own_app, Hown.
      cbn [own]. rewrite String.eqb_refl. cbn [fst snd].
      split; [reflexivity|].
      split; [now rewrite !objects_set_length|]. split.
      * intros ref Hne.
        rewrite !object_at_set_ne by congruence. reflexivity.
      * rewrite object_at_set_eq by now rewrite objects_set_length.
        now rewrite update_created.
Qed.

Lemma skipn_nth_error {A : Type} k (l : list A) x :
  nth_error l k = Some x -> skipn k l = x :: skipn (S k) l.
Proof.
  revert k. induction l as [|y l IH]; intros [|k] H; simpl in *;
    try discriminate.
  - now injection H as ->.
  - now apply IH.
Qed.

Lemma forEach_on_spec jobMap len :
  forall k h,
    (jobMap < List.length (objects h))%nat ->
    argument (fst (forEach_on (callback_on Date_parse now jobMap) k len h))
      = argument h /\
    List.length
      (objects (fst (forEach_on (callback_on Date_parse now jobMap) k len h)))
      = List.length (objects h) /\
    (forall ref, ref <> jobMap ->
       object_at ref
         (fst (forEach_on (callback_on Date_parse now jobMap) k len h)) =
       object_at ref h) /\
    returned (fst (forEach_on (callback_on Date_parse now jobMap) k len h))
      (match snd (forEach_on (callback_on Date_parse now jobMap) k len h)
       with
       | Normal _ => Normal jobMap
       | Throw e => Throw e
       end) =
    forEach (callback Date_parse now)
      (firstn len (skipn k (Req.jobRequisitions (argument h))))
      (object_at jobMap h).
Proof.
  induction len as [|len IH]; intros k h Hin; [now repeat split|].
  cbn [forEach_on].
  destruct (nth_error (Req.jobRequisitions (argument h)) k) as [r|] eqn:Hk.
  - rewrite (skipn_nth_error _ _ _ Hk). cbn [firstn forEach].
    destruct (callback_on_spec jobMap r h Hin) as (Harg & Hlen & Hoth & Hrun).
    destruct (callback_on Date_parse now jobMap r h) as [h' [u|e]];
      simpl in Harg, Hlen, Hoth, Hrun; rewrite Hrun; simpl.
    + destruct (IH (S k) h') as (Harg' & Hlen' & Hoth' & Hrun');
        [now rewrite Hlen|].
      rewrite Harg in Hrun'.
      split; [congruence|]. split; [congruence|]. split; [|exact Hrun'].
      intros ref Hne. now rewrite Hoth', Hoth.
    + now repeat split.
  - assert (Hs : skipn k (Req.jobRequisitions (argument h)) = []).
    { apply skipn_all2. now apply nth_error_None. }
    assert (Hs' : skipn (S k) (Req.jobRequisitions (argument h)) = []).
    { apply skipn_all2. apply nth_error_None in Hk. lia. }
    destruct (IH (S k) h Hin) as (Harg' & Hlen' & Hoth' & Hrun').
    rewrite Hs' in Hrun'. rewrite Hs. rewrite firstn_nil in *.
    now repeat split.
Qed.

(** One call on a heap: the argument and the objects already there are as
    before, and the caller holds what the transform on values returns. *)
Lemma restructureOpenings_on_spec h :
  argument (fst (restructureOpenings_on Date_parse now h)) = argument h /\
  (List.length (objects h) <
   List.length (objects (fst (restructureOpenings_on Date_parse now h))))%nat /\
  (forall ref, (ref < List.length (objects h))%nat ->
     object_at ref (fst (restructureOpenings_on Date_parse now h)) =
     object_at ref h) /\
  (forall ref, snd (restructureOpenings_on Date_parse now h) = Normal ref ->
     ref = List.length (objects h)) /\
  returned (fst (restructureOpenings_on Date_parse now h))
    (snd (restructureOpenings_on Date_parse now h)) =
  restructureOpenings Date_parse now (argument h).
Proof.
  unfold restructureOpenings_on, new_object, restructureOpenings.
  set (h0 := {| argument := argument h; objects := objects h ++ [[]] |}).
  assert (Hin : (List.length (objects h) < List.length (objects h0))%nat).
  { simpl. rewrite length_app. simpl. lia. }
  assert (Hempty : object_at (List.length (objects h)) h0 = []).
  { unfold object_at. simpl. rewrite app_nth2 by lia.
    now rewrite Nat.sub_diag. }
  destruct (forEach_on_spec (List.length (objects h))
              (List.length (Req.jobRequisitions (argument h0))) 0 h0 Hin)
    as (Harg & Hlen & Hoth & Hrun).
  rewrite Hempty in Hrun. simpl skipn in Hrun. rewrite firstn_all in Hrun.
  destruct (forEach_on
              (callback_on Date_parse now (List.length (objects h))) 0
              (List.length (Req.jobRequisitions (argument h0))) h0)
    as [h' out]; cbn [fst snd] in *.
  simpl in Harg, Hlen. rewrite length_app in Hlen. simpl in Hlen.
  assert (Hold : forall ref, (ref < List.length (objects h))%nat ->
                             object_at ref h' = object_at ref h).
  { intros ref Href. rewrite Hoth by lia.
    unfold object_at. simpl. now rewrite app_nth1. }
  destruct out as [u|e]; cbn [fst snd returned] in *;
    (split; [exact Harg|]; split; [lia|]; split; [exact Hold|];
     split; [intros ref; congruence | exact Hrun]).
Qed.

(** C10: run on a heap, where the callback is handed the heap whole, the
    transform writes only to the object it makes at line 113: the argument
    and every object already there are after the call as before it, and
    the caller holds what the transform on values gives for the current
    date and the argument.  A second run, on the heap the first one left,
    makes an object of its own: it hands the caller the same output, and
    leaves the argument and the output of the first run as they were. *)
Theorem transform_is_repeatable h :
  let '(h1, out1) := restructureOpenings_on Date_parse now h in
  let '(h2, out2) := restructureOpenings_on Date_parse now h1 in
  argument h1 = argument h /\
  argument h2 = argument h /\
  (forall ref, (ref < List.length (objects h))%nat ->
     object_at ref h1 = object_at ref h /\
     object_at ref h2 = object_at ref h) /\
  returned h1 out1 = restructureOpenings Date_parse now (argument h) /\
  returned h2 out2 = returned h1 out1 /\
  returned h2 out1 = returned h1 out1.
Proof.
  destruct (restructureOpenings_on_spec h)
    as (Harg1 & Hlen1 & Hold1 & Hnew1 & Hret1).
  destruct (restructureOpenings_on Date_parse now h) as [h1 out1] eqn:Hrun1.
  simpl in Harg1, Hlen1, Hold1, Hnew1, Hret1.
  destruct (restructureOpenings_on_spec h1)
    as (Harg2 & Hlen2 & Hold2 & _ & Hret2).
  destruct (restructureOpenings_on Date_parse now h1) as [h2 out2] eqn:Hrun2.
  simpl in Harg2, Hlen2, Hold2, Hret2.
  split; [exact Harg1|]. split; [congruence|]. split; [|split; [|split]].
  - intros ref Href. split; [now apply Hold1|].
    rewrite Hold2 by lia. now apply Hold1.
  - exact Hret1.
  - rewrite Hret2, Hret1. now rewrite Harg1.
  - destruct out1 as [ref|e]; simpl; [|reflexivity].
    f_equal. apply Hold2. rewrite (Hnew1 ref eq_refl). exact Hlen1.
Qed.

End OrderClaims.

(** ** The paginated fetch *)

Lemma offsets_from_closed skip n :
  offsets_from skip n = map (fun i => skip + 20 * Z.of_nat i) (seq 0 n).
Proof.
  revert skip. induction n as [|n IH]; intros skip; [reflexivity|].
  cbn [offsets_from seq map]. f_equal; [lia|].
  rewrite IH, <- seq_shift, map_map. apply map_ext. intros i. lia.
Qed.

Lemma offsets_from_0 n : offsets_from 0 n = offsets n.
Proof. rewrite offsets_from_closed. reflexivity. Qed.

Lemma offsets_from_In skip n s :
  In s (offsets_from skip n) <->
  exists i, (i < n)%nat /\ s = skip + 20 * Z.of_nat i.
Proof.
  rewrite offsets_from_closed, in_map_iff. split.
  - intros (i & <- & Hi). apply in_seq in Hi. exists i.
    split; [lia | reflexivity].
  - intros (i & Hi & ->). exists i. split; [reflexivity | apply in_seq; lia].
Qed.

Lemma page_count_spec T :
  0 <= T ->
  exists n, page_count T = S n /\
            T <= 20 * Z.of_nat (S n) /\
            ((0 < n)%nat -> 20 * Z.of_nat n < T).
Proof.
  intros HT. unfold page_count, ceil_div.
  destruct (Z.eqb_spec T 0) as [->|Hne].
  - exists 0%nat. repeat split; lia.
  - pose proof (Z.div_mod (T + 20 - 1) 20 ltac:(lia)) as Hdm.
    pose proof (Z.mod_pos_bound (T + 20 - 1) 20 ltac:(lia)) as Hb.
    set (c := (T + 20 - 1) / 20) in *.
    exists (Z.to_nat (c - 1)).
    assert (1 <= c) by lia.
    repeat split; try lia.
Qed.

Section FetchFacts.

Variable get : Z -> completion Req.Requisition.

(** With every page reporting [T], the loop asks for [S n] pages when [T]
    is beyond the first [n] of them and within the first [S n]. *)
Lemma fetch_loop_consistent T page n :
  forall skip acc fuel,
    (forall s, In s (offsets_from skip (S n)) ->
               get s = Normal {| Req.jobRequisitions := page s;
                                 Req.meta := {| Req.totalNumber := T |} |}) ->
    (S n <= fuel)%nat ->
    T <= skip + 20 * Z.of_nat (S n) ->
    ((0 < n)%nat -> skip + 20 * Z.of_nat n < T) ->
    fetch_loop get fuel acc skip =
    (offsets_from skip (S n),
     Some (Normal {| Req.jobRequisitions :=
                       acc ++ List.concat (map page (offsets_from skip (S n)));
                     Req.meta := {| Req.totalNumber := T |} |})).
Proof.
  induction n as [|n IH]; intros skip acc fuel Hget Hfuel Hhi Hlo;
    (destruct fuel as [|fuel]; [lia|]); cbn [fetch_loop];
    rewrite (Hget skip (or_introl eq_refl));
    cbn [Req.jobRequisitions Req.meta Req.totalNumber].
  - destruct (Z.ltb_spec (skip + 20) T); [lia|].
    simpl. now rewrite app_nil_r.
  - destruct (Z.ltb_spec (skip + 20) T); [|lia].
    rewrite (IH (skip + 20) (acc ++ page skip) fuel); try lia.
    + cbn [offsets_from map List.concat]. now rewrite <- app_assoc.
    + intros s Hs. apply Hget. now right.
Qed.

(** A request that fails after [n] pages that each called for a next one
    ends the loop with that failure. *)
Lemma fetch_loop_fails e n :
  forall skip acc fuel,
    (forall i, (i < n)%nat ->
       exists batch,
         get (skip + 20 * Z.of_nat i) = Normal batch /\
         skip + 20 * Z.of_nat i + 20 < Req.totalNumber (Req.meta batch)) ->
    get (skip + 20 * Z.of_nat n) = Throw e ->
    (n < fuel)%nat ->
    fetch_loop get fuel acc skip = (offsets_from skip (S n), Some (Throw e)).
Proof.
  induction n as [|n IH]; intros skip acc fuel Hok Hfail Hfuel;
    (destruct fuel as [|fuel]; [lia|]); cbn [fetch_loop].
  - replace (skip + 20 * Z.of_nat 0) with skip in Hfail by lia.
    now rewrite Hfail.
  - destruct (Hok 0%nat ltac:(lia)) as (batch & Hb & Hmore).
    replace (skip + 20 * Z.of_nat 0) with skip in Hb, Hmore by lia.
    rewrite Hb.
    destruct (Z.ltb_spec (skip + 20) (Req.totalNumber (Req.meta batch)));
      [|lia].
    rewrite (IH (skip + 20) _ fuel); [reflexivity| | |lia].
    + intros i Hi. destruct (Hok (S i) ltac:(lia)) as (b & Hb' & Hm).
      exists b. replace (skip + 20 + 20 * Z.of_nat i)
        with (skip + 20 * Z.of_nat (S i)) by lia. now split.
    + now replace (skip + 20 + 20 * Z.of_nat n)
        with (skip + 20 * Z.of_nat (S n)) by lia.
Qed.

End FetchFacts.

(** The records of [S n] pages of twenty, the last one cut at [T]. *)
Lemma pages_length T (page : Z -> list Req.JobRequisition) n :
  forall skip,
    0 <= skip -> skip <= T ->
    T <= skip + 20 * Z.of_nat (S n) ->
    ((0 < n)%nat -> skip + 20 * Z.of_nat n < T) ->
    (forall s, In s (offsets_from skip (S n)) ->
       List.length (page s) = Z.to_nat (Z.min 20 (Z.max 0 (T - s)))) ->
    List.length (List.concat (map page (offsets_from skip (S n)))) =
    Z.to_nat (T - skip).
Proof.
  induction n as [|n IH]; intros skip H0 Hle Hhi Hlo Hsize;
    change (offsets_from skip (S ?k))
      with (skip :: offsets_from (skip + 20) k) in *;
    cbn [map List.concat]; rewrite length_app,
      (Hsize skip (or_introl eq_refl)).
  - simpl. lia.
  - rewrite (IH (skip + 20)); try lia.
    intros s Hs. apply Hsize. now right.
Qed.

(** C1: with every page response reporting the same total [T], the fetch
    sends, after the token request, exactly [ceil(T/20)] page requests (one
    when [T] is 0) at the offsets 0, 20, 40, ..., and returns the pages'
    records concatenated in request order, with [T] as total; when the
    upstream serves the listing twenty at a time, so that the page at
    offset [s] holds [min 20 (T - s)] records, that sequence has length
    [T]. *)
Theorem paginated_fetch_is_complete (w : World) (T : Z) token page fuel :
  0 <= T ->
  getAccessToken w = Normal token ->
  (forall skip,
      In skip (offsets (page_count T)) ->
      listing_endpoint w (bearer token) skip =
      Normal {| Req.jobRequisitions := page skip;
                Req.meta := {| Req.totalNumber := T |} |}) ->
  (page_count T <= fuel)%nat ->
  fetchJobRequisitions w fuel =
    (POST_token :: map (GET_page (bearer token)) (offsets (page_count T)),
     Some (Normal {| Req.jobRequisitions :=
                       List.concat (map page (offsets (page_count T)));
                     Req.meta := {| Req.totalNumber := T |} |})) /\
  (T = 0 -> page_count T = 1%nat) /\
  (0 < T ->
   Z.of_nat (page_count T) = ceil_div T 20 /\
   20 * (Z.of_nat (page_count T) - 1) < T <= 20 * Z.of_nat (page_count T)) /\
  ((forall skip,
       In skip (offsets (page_count T)) ->
       List.length (page skip) = Z.to_nat (Z.min 20 (Z.max 0 (T - skip)))) ->
   Z.of_nat (List.length (List.concat (map page (offsets (page_count T)))))
   = T).
Proof.
  intros HT Htok Hget Hfuel.
  destruct (page_count_spec T HT) as (n & Hn & Hhi & Hlo).
  rewrite Hn, <- offsets_from_0 in *.
  split; [|split; [|split]].
  - unfold fetchJobRequisitions. rewrite Htok.
    rewrite (fetch_loop_consistent _ T page n 0 [] fuel); auto; lia.
  - intros ->. now rewrite <- Hn.
  - intros Hpos. split; [|lia].
    unfold page_count in Hn. destruct (Z.eqb_spec T 0); [lia|].
    assert (0 <= ceil_div T 20).
    { unfold ceil_div. apply Z.div_pos; lia. }
    lia.
  - intros Hsize.
    rewrite (pages_length T page n 0); auto; lia.
Qed.

(** C6: when a page request fails after [n] pages that each called for a
    next one, the fetch throws that failure, with none of the records of
    the [n] pages, and the handler goes on to make a JSON error response
    from the error's message and the upstream status, or 500 when the
    error carries none.  The response is made, and is the handler's answer,
    when that status is within 200..599 and allows a body.  For a status
    that allows none (304) or lies beyond 599 (999) the making of the
    response throws inside the [catch]: the handler returns no JSON body
    at all. *)
Theorem failed_page_fails_the_request Date_parse (w : World) token n e fuel :
  getAccessToken w = Normal token ->
  (forall i, (i < n)%nat ->
     exists batch,
       listing_endpoint w (bearer token) (20 * Z.of_nat i) = Normal batch /\
       20 * Z.of_nat i + 20 < Req.totalNumber (Req.meta batch)) ->
  listing_endpoint w (bearer token) (20 * Z.of_nat n) = Throw e ->
  (n < fuel)%nat ->
  fetchJobRequisitions w fuel =
    (POST_token :: map (GET_page (bearer token)) (offsets (S n)),
     Some (Throw e)) /\
  GET Date_parse w fuel =
    (POST_token :: map (GET_page (bearer token)) (offsets (S n)),
     Some (NextResponse_json (Json_error (message e)) (status_or_500 e))) /\
  (200 <= status_or_500 e <= 599 ->
   null_body_status (status_or_500 e) = false ->
   GET Date_parse w fuel =
     (POST_token :: map (GET_page (bearer token)) (offsets (S n)),
      Some (Responds {| body := Json_error (message e);
                        http_status := status_or_500 e |}))) /\
  (200 <= status_or_500 e <= 599 ->
   null_body_status (status_or_500 e) = true ->
   GET Date_parse w fuel =
     (POST_token :: map (GET_page (bearer token)) (offsets (S n)),
      Some (Rejects (TypeError_null_body (status_or_500 e))))) /\
  (599 < status_or_500 e < 65536 ->
   GET Date_parse w fuel =
     (POST_token :: map (GET_page (bearer token)) (offsets (S n)),
      Some (Rejects (RangeError_status (status_or_500 e))))) /\
  (response e = None -> status_or_500 e = 500) /\
  (forall r, response e = Some r -> status r <> 0 ->
             status_or_500 e = status r).
Proof.
  intros Htok Hok Hfail Hfuel.
  assert (Hfetch : fetchJobRequisitions w fuel =
            (POST_token :: map (GET_page (bearer token)) (offsets (S n)),
             Some (Throw e))).
  { unfold fetchJobRequisitions. rewrite Htok.
    rewrite (fetch_loop_fails _ e n 0 [] fuel);
      [now rewrite offsets_from_0 | | exact Hfail | exact Hfuel].
    intros i Hi. destruct (Hok i Hi) as (b & Hb & Hm). now exists b. }
  assert (HGET : GET Date_parse w fuel =
            (POST_token :: map (GET_page (bearer token)) (offsets (S n)),
             Some (NextResponse_json (Json_error (message e))
                     (status_or_500 e)))).
  { unfold GET. now rewrite Hfetch. }
  split; [exact Hfetch|]. split; [exact HGET|].
  split; [|split; [|split; [|split]]].
  - intros Hs Hnull. now rewrite HGET, NextResponse_json_accepts.
  - intros Hs Hnull. now rewrite HGET, NextResponse_json_null_body.
  - intros Hs. now rewrite HGET, NextResponse_json_range.
  - unfold status_or_500. now intros ->.
  - unfold status_or_500. intros r -> Hr.
    now destruct (Z.eqb_spec (status r) 0).
Qed.

(** C2 as amended: whenever the token request is rejected, as it is for a
    transport error or an answer outside 2xx such as 401, or is answered
    with a null body, the handler sends no page request and answers with
    status 500 and the fixed message, whatever the upstream status and
    body were. *)
Theorem token_failure_is_answered_500 Date_parse (w : World) fuel :
  (exists e, token_endpoint w = Throw e) \/ token_endpoint w = Normal None ->
  getAccessToken w = Throw (new_Error token_failure) /\
  GET Date_parse w fuel =
    ([POST_token],
     Some (Responds {| body := Json_error "Failed to retrieve access token";
                       http_status := 500 |})).
Proof.
  intros Hfail.
  assert (Htok : getAccessToken w = Throw (new_Error token_failure)).
  { unfold getAccessToken. destruct Hfail as [(e & ->)| ->]; reflexivity. }
  split; [exact Htok|].
  unfold GET, fetchJobRequisitions. now rewrite Htok.
Qed.

(** ** The statements at sample inputs *)

(** Twenty-five records upstream: two page requests, at 0 and 20, and the
    twenty-five records back. *)
Lemma fetch_of_25_records :
  fetchJobRequisitions (Sample.upstream 25) 2 =
    ([POST_token; GET_page "Bearer t0k3n" 0; GET_page "Bearer t0k3n" 20],
     Some (Normal (Sample.batch
                     (Sample.page_of 25 0 ++ Sample.page_of 25 20) 25)))
  /\ Z.of_nat (List.length (Sample.page_of 25 0 ++ Sample.page_of 25 20)) = 25.
Proof.
  destruct (paginated_fetch_is_complete (Sample.upstream 25) 25
              (Some "t0k3n") (Sample.page_of 25) 2)
    as (Hfetch & _ & _ & Hlen).
  - lia.
  - reflexivity.
  - intros skip _. reflexivity.
  - apply le_n.
  - split.
    + exact Hfetch.
    + apply Hlen. intros skip _. unfold Sample.page_of. apply repeat_length.
Defined.

(** No record upstream: still one page request. *)
Example fetch_of_no_record :
  fst (fetchJobRequisitions (Sample.upstream 0) 1) =
  [POST_token; GET_page "Bearer t0k3n" 0].
Proof. reflexivity. Qed.

(** An upstream that reports 25 records and serves three per page gets
    the same two requests, and six records come back: the length of the
    result is the upstream's doing. *)
Example fetch_of_short_pages :
  fetchJobRequisitions Sample.short_pages 2 =
    ([POST_token; GET_page "Bearer t0k3n" 0; GET_page "Bearer t0k3n" 20],
     Some (Normal (Sample.batch
                     (repeat (Sample.requisition (Some "Sales") None) 6) 25))).
Proof. reflexivity. Qed.

(** The claim C2 as stated fails, twice over.  The token endpoint answers
    401, and the handler answers 500.  And an exchange that fails by a 2xx
    answer whose body has no [access_token] is no failure for the route:
    [getAccessToken] returns [undefined], the page requests go out under
    "Bearer undefined", and the answer is not the fixed message. *)
Lemma token_401_is_not_answered_401 :
  (exists answer,
     GET Sample.Date_parse Sample.token_refused 1 =
       ([POST_token], Some (Responds answer))
     /\ body answer = Json_error "Failed to retrieve access token"
     /\ http_status answer = 500
     /\ http_status answer <> 401)
  /\
  (getAccessToken Sample.token_without_member = Normal None
   /\ GET Sample.Date_parse Sample.token_without_member 2 =
        ([POST_token; GET_page "Bearer undefined" 0;
          GET_page "Bearer undefined" 20],
         Some (Responds {| body := Json_error "Request failed";
                           http_status := 403 |}))).
Proof.
  split.
  - eexists. split; [reflexivity|]. repeat split. discriminate.
  - split; reflexivity.
Qed.

Lemma token_refused_is_answered_500 :
  GET Sample.Date_parse Sample.token_refused 1 =
    ([POST_token],
     Some (Responds {| body := Json_error "Failed to retrieve access token";
                       http_status := 500 |})).
Proof.
  apply (token_failure_is_answered_500
           Sample.Date_parse Sample.token_refused 1).
  left. eexists. reflexivity.
Defined.

(** A token body without [access_token] is no failure for the route: the
    page requests go out under "Bearer undefined". *)
Example missing_access_token_is_sent_as_undefined :
  fst (GET Sample.Date_parse
         {| token_endpoint := Normal (Some {| access_token := None |});
            listing_endpoint := Sample.listing 0;
            clock := Sample.today |} 1) =
  [POST_token; GET_page "Bearer undefined" 0].
Proof. reflexivity. Qed.

(** A posting that expired a year before today is dropped; the same
    requisition without an expire date goes on to the push. *)
Lemma expired_sample_files_nothing :
  produced Sample.Date_parse Sample.today
    (Sample.requisition (Some "Sales") (Some "2024-01-01T00:00:00.000Z")) = []
  /\ exists o,
       callback Sample.Date_parse Sample.today []
         (Sample.requisition (Some "Sales") None)
       = push_opening "Sales" o []
       /\ Opn.expireDate o = None.
Proof.
  split.
  - apply (proj1 (expired_requisition_files_nothing
                    Sample.Date_parse Sample.today
                    (Sample.requisition (Some "Sales")
                       (Some "2024-01-01T00:00:00.000Z")))
             (Sample.posting (Some "2024-01-01T00:00:00.000Z")) []
             "2024-01-01T00:00:00.000Z" 1704067200000);
      [reflexivity | reflexivity | discriminate | reflexivity
      | unfold Sample.today; lia].
  - apply (proj2 (expired_requisition_files_nothing
                    Sample.Date_parse Sample.today
                    (Sample.requisition (Some "Sales") None))
             eq_refl)
      with (pi := Sample.posting None) (pis := [])
           (loc := Sample.new_york) (locs := []);
      [reflexivity | discriminate | reflexivity | reflexivity].
Defined.

(** The same requisition with a date five years ahead is kept. *)
Example future_sample_is_kept :
  produced Sample.Date_parse Sample.today
    (Sample.requisition (Some "Sales") (Some "2030-01-01T00:00:00.000Z")) =
  [("Sales", Sample.item (Some "2030-01-01T00:00:00.000Z"))].
Proof. reflexivity. Qed.

Lemma all_sample_is_passed_over :
  restructureOpenings Sample.Date_parse Sample.today
    (Sample.batch [Sample.requisition (Some "Sales") None;
                   Sample.requisition (Some "All") None] 2) =
  restructureOpenings Sample.Date_parse Sample.today
    (Sample.batch [Sample.requisition (Some "Sales") None] 2)
  /\ own "All" [("Sales", [Sample.item None])] = None.
Proof.
  split.
  - apply (proj1 (all_department_is_passed_over Sample.Date_parse Sample.today)
             (Sample.requisition (Some "All") None) eq_refl)
      with (rs1 := [Sample.requisition (Some "Sales") None]) (rs2 := []).
  - apply (proj2 (all_department_is_passed_over Sample.Date_parse Sample.today)
             (Sample.batch [Sample.requisition (Some "Sales") None;
                            Sample.requisition (Some "All") None] 2)
             [("Sales", [Sample.item None])] eq_refl).
Defined.

(** The comparison with "All" is exact: "all" is a department like any
    other. *)
Example lower_case_all_is_kept :
  restructureOpenings Sample.Date_parse Sample.today
    (Sample.batch [Sample.requisition (Some "all") None] 1) =
  Normal [("all", [Sample.item None])].
Proof. reflexivity. Qed.

(** A department named like a member of [Object.prototype] finds that
    member instead of an array, and the push throws. *)
Example inherited_name_department_throws :
  restructureOpenings Sample.Date_parse Sample.today
    (Sample.batch [Sample.requisition (Some "toString") None] 1) =
  Throw (new_Error "jobMap[department].push is not a function").
Proof. reflexivity. Qed.

Lemma no_units_sample_fails :
  exists msg,
    GET Sample.Date_parse
      {| token_endpoint := Sample.token_ok;
         listing_endpoint :=
           fun _ _ =>
             Normal (Sample.batch [Sample.requisition (Some "Sales") None;
                                   Sample.no_units] 2);
         clock := Sample.today |} 1 =
    ([POST_token; GET_page "Bearer t0k3n" 0],
     Some (Responds {| body := Json_error msg; http_status := 500 |})).
Proof.
  apply (proj2 (proj2 (empty_array_fails_the_request
                         Sample.Date_parse Sample.today
                         (Sample.batch [Sample.requisition (Some "Sales") None;
                                        Sample.no_units] 2)
                         Sample.no_units
                         (or_intror (or_introl eq_refl))
                         (or_introl eq_refl))));
    reflexivity.
Defined.

(** The upstream answers the second page request with 304: the making of
    the error response throws, and the handler returns nothing. *)
Lemma second_page_304_is_left_unanswered :
  GET Sample.Date_parse
    (Sample.later_pages_fail (Sample.rejected 304 "")) 2 =
  ([POST_token; GET_page "Bearer t0k3n" 0; GET_page "Bearer t0k3n" 20],
   Some (Rejects (TypeError_null_body 304))).
Proof.
  destruct (failed_page_fails_the_request Sample.Date_parse
              (Sample.later_pages_fail (Sample.rejected 304 ""))
              (Some "t0k3n") 1 (Sample.rejected 304 "") 2)
    as (_ & _ & _ & Hnull & _).
  - reflexivity.
  - intros [|i] Hi; [|lia].
    exists (Sample.batch (Sample.page_of 45 0) 45). split; reflexivity.
  - reflexivity.
  - apply le_n.
  - apply Hnull; [unfold status_or_500; simpl; lia | reflexivity].
Defined.

(** So it is for a status beyond 599. *)
Example second_page_999_is_left_unanswered :
  snd (GET Sample.Date_parse
         (Sample.later_pages_fail (Sample.rejected 999 "denied")) 2) =
  Some (Rejects (RangeError_status 999)).
Proof. reflexivity. Qed.

(** A status that a JSON response may carry is passed on. *)
Example second_page_503_is_answered_503 :
  GET Sample.Date_parse
    (Sample.later_pages_fail (Sample.rejected 503 "maintenance")) 2 =
  ([POST_token; GET_page "Bearer t0k3n" 0; GET_page "Bearer t0k3n" 20],
   Some (Responds {| body := Json_error "Request failed";
                     http_status := 503 |})).
Proof. reflexivity. Qed.

(** A request that gets no answer at all is answered 500. *)
Example unanswered_page_is_answered_500 :
  snd (GET Sample.Date_parse (Sample.later_pages_fail Sample.unreachable) 2) =
  Some (Responds {| body := Json_error "connect ECONNREFUSED";
                    http_status := 500 |}).
Proof. reflexivity. Qed.


Lemma sample_link_is_the_first_of_two :
  exists d o,
    push_opening d o [] = Normal [("Sales", [Sample.item None])] /\
    Opn.openingLink o = "https://a".
Proof.
  destruct (opening_link_is_first_career_center
              Sample.Date_parse Sample.today
              (Sample.requisition (Some "Sales") None)
              [] [("Sales", [Sample.item None])] eq_refl)
    as (d & o & Hpush & Hfirst & _).
  - discriminate.
  - exists d, o. split; [exact Hpush|].
    apply (Hfirst [Sample.self_link] (Sample.apply_link "https://a")
             [Sample.apply_link "https://b"] eq_refl).
    + repeat constructor. discriminate.
    + reflexivity.
    + reflexivity.
Defined.

(** The claim C9 as stated fails: "Sales" is met first and "7" second, and
    the keys of the output start with "7". *)
Lemma index_department_jumps_the_queue :
  exists jobMap,
    restructureOpenings Sample.Date_parse Sample.today
      (Sample.batch [Sample.requisition (Some "Sales") None;
                     Sample.requisition (Some "7") None] 2) = Normal jobMap
    /\ map fst (flat_map (produced Sample.Date_parse Sample.today)
                  [Sample.requisition (Some "Sales") None;
                   Sample.requisition (Some "7") None]) = ["Sales"; "7"]
    /\ keys jobMap = ["7"; "Sales"]
    /\ keys jobMap <> ["Sales"; "7"].
Proof.
  eexists. split; [reflexivity|]. repeat split. discriminate.
Qed.

Lemma department_order_sample :
  exists indexed,
    keys [("Sales", [Sample.item None; Sample.item None]);
          ("7", [Sample.item None]);
          ("Legal", [Sample.item None])] = indexed ++ ["Sales"; "Legal"]
    /\ (forall d, In d indexed <->
                  is_index d = true /\ In d ["Sales"; "7"; "Legal"; "Sales"]).
Proof.
  destruct (department_order Sample.Date_parse Sample.today
              (Sample.batch [Sample.requisition (Some "Sales") None;
                             Sample.requisition (Some "7") None;
                             Sample.requisition (Some "Legal") None;
                             Sample.requisition (Some "Sales") None] 4)
              [("Sales", [Sample.item None; Sample.item None]);
               ("7", [Sample.item None]);
               ("Legal", [Sample.item None])] eq_refl)
    as (indexed & Hkeys & _ & Hin & _).
  exists indexed. split; [exact Hkeys | exact Hin].
Defined.

(** * Further properties *)

(** ** Every run of the fetch *)

Section FetchRuns.

Variable get : Z -> completion Req.Requisition.

Lemma fetch_loop_chain batches :
  forall skip acc fuel,
    pages_chain get skip batches ->
    (List.length batches <= fuel)%nat ->
    fetch_loop get fuel acc skip =
    (offsets_from skip (List.length batches),
     Some (Normal
       {| Req.jobRequisitions :=
            acc ++ List.concat (map Req.jobRequisitions batches);
          Req.meta := {| Req.totalNumber := last_total batches |} |})).
Proof.
  induction batches as [|batch later IH]; intros skip acc fuel Hchain Hfuel;
    [contradiction|].
  destruct fuel as [|fuel]; [simpl in Hfuel; lia|].
  destruct Hchain as [Hget Hrest]. cbn [fetch_loop]. rewrite Hget.
  destruct later as [|next later].
  - destruct (Z.ltb_spec (skip + 20) (Req.totalNumber (Req.meta batch)));
      [lia|].
    simpl. now rewrite app_nil_r.
  - destruct Hrest as [Hmore Hchain].
    destruct (Z.ltb_spec (skip + 20) (Req.totalNumber (Req.meta batch)));
      [|lia].
    rewrite (IH (skip + 20) (acc ++ Req.jobRequisitions batch) fuel Hchain);
      [|simpl in *; lia].
    cbn [List.length offsets_from map List.concat].
    now rewrite <- app_assoc.
Qed.

Lemma fetch_loop_Normal fuel :
  forall acc skip asked result,
    fetch_loop get fuel acc skip = (asked, Some (Normal result)) ->
    exists batches,
      pages_chain get skip batches /\
      (List.length batches <= fuel)%nat /\
      asked = offsets_from skip (List.length batches) /\
      result =
      {| Req.jobRequisitions :=
           acc ++ List.concat (map Req.jobRequisitions batches);
         Req.meta := {| Req.totalNumber := last_total batches |} |}.
Proof.
  induction fuel as [|fuel IH]; intros acc skip asked result; simpl;
    [discriminate|].
  destruct (get skip) as [batch|e] eqn:Hget; [|discriminate].
  destruct (Z.ltb_spec (skip + 20) (Req.totalNumber (Req.meta batch)))
    as [Hmore|Hstop].
  - destruct (fetch_loop get fuel (acc ++ Req.jobRequisitions batch)
                (skip + 20)) as [asked' result'] eqn:Hrec.
    intros [= <- ->].
    destruct (IH _ _ _ _ Hrec) as (later & Hchain & Hlen & -> & ->).
    exists (batch :: later). destruct later as [|next later];
      [contradiction|].
    split; [|split; [|split]].
    + split; [exact Hget|]. split; [exact Hmore | exact Hchain].
    + cbn [List.length] in *. lia.
    + reflexivity.
    + cbn [map List.concat]. now rewrite <- app_assoc.
  - intros [= <- <-]. exists [batch]. split; [|split; [|split]].
    + split; [exact Hget | exact Hstop].
    + cbn [List.length]. lia.
    + reflexivity.
    + simpl. now rewrite app_nil_r.
Qed.

(** The offsets asked for are consecutive from [skip], at most [fuel] of
    them, and at least one as soon as one turn is allowed. *)
Lemma fetch_loop_asked fuel :
  forall acc skip,
    exists k, (k <= fuel)%nat /\ ((0 < fuel)%nat -> (0 < k)%nat) /\
              fst (fetch_loop get fuel acc skip) = offsets_from skip k.
Proof.
  induction fuel as [|fuel IH]; intros acc skip; simpl.
  - exists 0%nat. repeat split; lia.
  - destruct (get skip) as [batch|e].
    + destruct (skip + 20 <? Req.totalNumber (Req.meta batch)).
      * destruct (IH (acc ++ Req.jobRequisitions batch) (skip + 20))
          as (k & Hk & _ & Hasked).
        destruct (fetch_loop get fuel (acc ++ Req.jobRequisitions batch)
                    (skip + 20)) as [asked result].
        exists (S k). simpl in *. repeat split; try lia. now rewrite Hasked.
      * exists 1%nat. repeat split; lia.
    + exists 1%nat. repeat split; lia.
Qed.

(** With every page calling for a next one, the turns run out. *)
Lemma fetch_loop_no_end fuel :
  (forall s, exists batch,
      get s = Normal batch /\ s + 20 < Req.totalNumber (Req.meta batch)) ->
  forall acc skip,
    fetch_loop get fuel acc skip = (offsets_from skip fuel, None).
Proof.
  intros Hmore. induction fuel as [|fuel IH]; intros acc skip; simpl;
    [reflexivity|].
  destruct (Hmore skip) as (batch & -> & Hlt).
  destruct (Z.ltb_spec (skip + 20) (Req.totalNumber (Req.meta batch)));
    [|lia].
  now rewrite IH.
Qed.

End FetchRuns.

(** X1: the fetch returns normally exactly when the token is obtained and
    the upstream answers a chain of pages at offsets 0, 20, 40, ..., each
    but the last reporting a total beyond the next offset; it then returns
    the records of those pages in order, and as total the one the last page
    reported. *)
Theorem fetch_returns_the_chain (w : World) fuel sent result :
  fetchJobRequisitions w fuel = (sent, Some (Normal result)) <->
  exists token batches,
    getAccessToken w = Normal token /\
    pages_chain (listing_endpoint w (bearer token)) 0 batches /\
    (List.length batches <= fuel)%nat /\
    sent = POST_token ::
           map (GET_page (bearer token)) (offsets (List.length batches)) /\
    result =
    {| Req.jobRequisitions := List.concat (map Req.jobRequisitions batches);
       Req.meta := {| Req.totalNumber := last_total batches |} |}.
Proof.
  unfold fetchJobRequisitions. split.
  - destruct (getAccessToken w) as [token|e]; [|discriminate].
    destruct (fetch_loop (listing_endpoint w (bearer token)) fuel [] 0)
      as [asked res] eqn:Hloop.
    intros [= <- ->].
    destruct (fetch_loop_Normal _ _ _ _ _ _ Hloop)
      as (batches & Hchain & Hlen & -> & ->).
    exists token, batches. rewrite offsets_from_0. now repeat split.
  - intros (token & batches & -> & Hchain & Hlen & -> & ->).
    rewrite (fetch_loop_chain _ batches 0 [] fuel Hchain Hlen).
    now rewrite offsets_from_0.
Qed.

(** X2: whatever the upstream does, the requests of a fetch are one token
    request, then page requests that all carry the token got from it, at
    the offsets 0, 20, 40, ... with none left out; there is at least one
    page request once the token is there, and none without it. *)
Theorem requests_of_a_fetch (w : World) fuel :
  (exists e, getAccessToken w = Throw e /\
             fst (fetchJobRequisitions w fuel) = [POST_token]) \/
  (exists token k,
      getAccessToken w = Normal token /\
      (k <= fuel)%nat /\ (fuel <> 0%nat -> k <> 0%nat) /\
      fst (fetchJobRequisitions w fuel) =
      POST_token :: map (GET_page (bearer token)) (offsets k)).
Proof.
  unfold fetchJobRequisitions.
  destruct (getAccessToken w) as [token|e].
  - right.
    destruct (fetch_loop_asked (listing_endpoint w (bearer token)) fuel [] 0)
      as (k & Hk & Hpos & Hasked).
    destruct (fetch_loop (listing_endpoint w (bearer token)) fuel [] 0)
      as [asked res].
    exists token, k. simpl in *. subst asked. rewrite offsets_from_0.
    repeat split; try assumption. lia.
  - left. exists e. now split.
Qed.

(** X3: the loop has no bound of its own.  While every page reports a total
    beyond the next offset, it goes on asking: whatever number of turns it
    is given, it uses them all and has not returned. *)
Theorem fetch_has_no_page_cap Date_parse (w : World) token fuel :
  getAccessToken w = Normal token ->
  (forall skip, exists batch,
      listing_endpoint w (bearer token) skip = Normal batch /\
      skip + 20 < Req.totalNumber (Req.meta batch)) ->
  GET Date_parse w fuel =
  (POST_token :: map (GET_page (bearer token)) (offsets fuel), None).
Proof.
  intros Htok Hmore. unfold GET, fetchJobRequisitions. rewrite Htok.
  rewrite (fetch_loop_no_end _ fuel Hmore). now rewrite offsets_from_0.
Qed.

(** ** The parameters of the page requests *)

Lemma Number_toString_inj n n' :
  Number_toString n = Number_toString n' -> n = n'.
Proof.
  unfold Number_toString. intros E.
  assert (Hnon : forall z, Z.to_int z <> Pos Nil /\ Z.to_int z <> Neg Nil).
  { intros [|p|p]; simpl; split; try discriminate;
      intros [= H]; now apply DecimalPos.Unsigned.to_uint_nonnil in H. }
  apply DecimalZ.to_int_inj.
  assert (Some (Z.to_int n) = Some (Z.to_int n')) as [= H]; [|exact H].
  destruct (Hnon n), (Hnon n').
  rewrite <- (NilZero.isi (Z.to_int n)), <- (NilZero.isi (Z.to_int n'));
    try assumption.
  now rewrite E.
Qed.

Lemma fetch_loop_endpoint_refines
    (send : URLSearchParams -> completion Req.Requisition) fuel :
  forall searchParams allRequisitions skip,
    (forall v, searchParams_set "$skip" v searchParams =
               [("$filter", status_filter); ("$top", "20"); ("$skip", v)]) ->
    fetch_loop_endpoint send fuel searchParams allRequisitions skip =
    (map page_query
       (fst (fetch_loop (fun s => send (page_query s)) fuel
               allRequisitions skip)),
     snd (fetch_loop (fun s => send (page_query s)) fuel
            allRequisitions skip)).
Proof.
  induction fuel as [|fuel IH]; intros params acc skip Hset;
    [reflexivity|].
  cbn [fetch_loop_endpoint fetch_loop].
  rewrite (Hset (Number_toString skip)).
  change [("$filter", status_filter); ("$top", "20");
          ("$skip", Number_toString skip)] with (page_query skip).
  destruct (send (page_query skip)) as [batch|e]; [|reflexivity].
  destruct (skip + 20 <? Req.totalNumber (Req.meta batch)); [|reflexivity].
  rewrite (IH (page_query skip)); [|intros v; reflexivity].
  now destruct (fetch_loop (fun s => send (page_query s)) fuel
                  (acc ++ Req.jobRequisitions batch) (skip + 20)).
Qed.

(** X12: the [endpoint] object is set up once and rewritten in place at
    each turn, and still every page request carries exactly three
    parameters, in this order: the fixed [$filter], [$top] = 20 and the
    [$skip] of its own offset in decimal, the [$skip] of the turn before
    being replaced, not kept.  The loop over the rewritten object asks and
    returns what the loop over the offsets does, and two offsets never give
    the same parameters. *)
Theorem page_requests_carry_three_parameters
    (send : URLSearchParams -> completion Req.Requisition)
    fuel allRequisitions skip :
  fetch_loop_endpoint send fuel endpoint_searchParams allRequisitions skip =
    (map page_query
       (fst (fetch_loop (fun s => send (page_query s)) fuel
               allRequisitions skip)),
     snd (fetch_loop (fun s => send (page_query s)) fuel
            allRequisitions skip))
  /\ (forall s, page_query s =
                [("$filter", "requisitionStatusCode/codeValue eq ON");
                 ("$top", "20"); ("$skip", Number_toString s)])
  /\ (forall s s', page_query s = page_query s' -> s = s').
Proof.
  split; [|split].
  - apply fetch_loop_endpoint_refines. intros v. reflexivity.
  - reflexivity.
  - unfold page_query. intros s s' [= H]. now apply Number_toString_inj.
Qed.

(** ** The answers of the handler *)

Section Answers.

Variable Date_parse : string -> option Z.

Lemma callback_Throw_plain now jobMap r e :
  callback Date_parse now jobMap r = Throw e -> response e = None.
Proof.
  destruct (callback_verdict Date_parse now r) as [e' He' H|H|d o _ _ _ _ H];
    rewrite H.
  - now intros [= <-].
  - discriminate.
  - unfold push_opening. destruct (own d jobMap); [discriminate|].
    destruct (inherited d); [|discriminate]. now intros [= <-].
Qed.

(** With no inherited name among the keys, a record on which the callback
    throws for every such map makes the iteration throw. *)
Lemma forEach_Throw_from now r rs :
  In r rs ->
  (forall jobMap, no_inherited jobMap ->
     exists e, callback Date_parse now jobMap r = Throw e) ->
  forall jobMap, no_inherited jobMap ->
    exists e, forEach (callback Date_parse now) rs jobMap = Throw e /\
              response e = None.
Proof.
  intros Hin Hr. induction rs as [|r' rs IH]; [contradiction|].
  intros jobMap Hwf. simpl.
  destruct (callback Date_parse now jobMap r') as [m1|e] eqn:Hrun; simpl.
  - destruct Hin as [->|Hin].
    + destruct (Hr jobMap Hwf) as (e & He). congruence.
    + apply (IH Hin).
      now destruct (callback_Normal _ _ _ _ _ Hwf Hrun).
  - exists e. split; [reflexivity|]. eapply callback_Throw_plain; eassumption.
Qed.

(** What a returned map holds: keys without repeat, none of them "All" or
    a name of [Object.prototype], and no empty array. *)
Lemma restructureOpenings_well_formed now openings jobMap :
  restructureOpenings Date_parse now openings = Normal jobMap ->
  NoDup (map fst jobMap) /\
  forall d arr, In (d, arr) jobMap ->
                d <> "All" /\ inherited d = false /\ arr <> [].
Proof.
  intros Hrun. unfold restructureOpenings in Hrun.
  apply forEach_Normal in Hrun; [|constructor].
  destruct Hrun as [Hmap Hwf].
  set (filed := flat_map (produced Date_parse now)
                  (Req.jobRequisitions openings)) in *.
  assert (Hnd : NoDup (map fst jobMap)).
  { subst jobMap. rewrite names_filed. apply first_seen_NoDup. }
  split; [exact Hnd|]. intros d arr Hin.
  assert (Hown := In_own _ _ _ Hnd Hin).
  rewrite Hmap, own_filed in Hown. simpl in Hown.
  destruct (filter (filed_under d) filed) as [|e es] eqn:Hmine;
    [discriminate|].
  injection Hown as <-.
  assert (He : In e (filter (filed_under d) filed))
    by (rewrite Hmine; now left).
  apply filter_In in He. destruct He as [He Hd].
  unfold filed_under in Hd. apply String.eqb_eq in Hd. subst d.
  destruct (produced_department Date_parse now _ e He)
    as (_ & _ & _ & _ & Hne & _).
  split; [exact Hne|]. split; [|discriminate].
  unfold no_inherited in Hwf. rewrite Forall_forall in Hwf. apply Hwf.
  change (fst e) with (fst (fst e, snd e :: map snd es)). now apply in_map.
Qed.

(** X4: an answer whose body is openings has status 200, lists each
    department once, has no "All" department and no department named like
    a member of [Object.prototype], and no department without an item. *)
Theorem openings_answer_is_well_formed (w : World) fuel sent answer deps :
  GET Date_parse w fuel = (sent, Some (Responds answer)) ->
  body answer = Json_openings deps ->
  http_status answer = 200 /\
  NoDup (map fst deps) /\
  (forall d arr, In (d, arr) deps ->
                 d <> "All" /\ ~ In d Object_prototype /\ arr <> []).
Proof.
  assert (Herr : forall e, error_response e = Responds answer ->
                           body answer = Json_openings deps -> False).
  { intros e He Hbody. unfold error_response in He.
    apply NextResponse_json_Responds in He. destruct He as [Hb _].
    rewrite Hb in Hbody. discriminate. }
  unfold GET. destruct (fetchJobRequisitions w fuel) as [sent' fetched].
  destruct fetched as [[requisitions|e]|]; [| |discriminate].
  - destruct (restructureOpenings Date_parse (clock w) requisitions)
      as [jobMap|e] eqn:Hrun.
    + rewrite NextResponse_json_accepts by (try reflexivity; lia).
      intros [= _ <-]. simpl. intros [= <-].
      destruct (restructureOpenings_well_formed _ _ _ Hrun) as [Hnd Hall].
      split; [reflexivity|]. split.
      * apply (Permutation_NoDup
                 (Permutation_sym (Permutation_map fst (entries_perm jobMap)))).
        exact Hnd.
      * intros d arr Hin.
        apply (Permutation_in _ (entries_perm jobMap)) in Hin.
        destruct (Hall d arr Hin) as (Hne & Hinh & Harr).
        repeat split; try assumption.
        intros Hproto.
        apply (proj2 (existsb_eqb_In d Object_prototype)) in Hproto.
        unfold inherited in Hinh. congruence.
    + intros [= _ He] Hbody. exfalso. eapply Herr; eassumption.
  - intros [= _ He] Hbody. exfalso. eapply Herr; eassumption.
Qed.

(** X5: whatever makes the transform throw, the handler answers with the
    message thrown and status 500: an error raised by the transform never
    carries an upstream status. *)
Theorem transform_failure_is_answered_500 (w : World) fuel sent result e :
  fetchJobRequisitions w fuel = (sent, Some (Normal result)) ->
  restructureOpenings Date_parse (clock w) result = Throw e ->
  GET Date_parse w fuel =
  (sent,
   Some (Responds {| body := Json_error (message e); http_status := 500 |})).
Proof.
  intros Hfetch Hrun. unfold GET. rewrite Hfetch, Hrun.
  now rewrite (error_response_plain e (restructureOpenings_Throw _ _ _ _ Hrun)).
Qed.

(** X6: a requisition that would be filed under a department named like a
    member of [Object.prototype] ("constructor", "toString", ...) makes the
    whole transform throw: the name reads as a truthy value that is no
    array, so no array is created and the push fails. *)
Theorem prototype_named_department_fails now openings r d :
  In r (Req.jobRequisitions openings) ->
  department_of r = Some d ->
  In d Object_prototype ->
  Req.postingInstructions r <> [] ->
  Req.requisitionLocations r <> [] ->
  is_expired Date_parse now (expireDate_of r) = false ->
  exists e,
    restructureOpenings Date_parse now openings = Throw e /\
    response e = None.
Proof.
  intros Hin Hd Hproto Hp Hl Hx.
  assert (Hinh : inherited d = true)
    by exact (proj2 (existsb_eqb_In d Object_prototype) Hproto).
  apply (forEach_Throw_from now r _ Hin); [|constructor].
  intros jobMap Hwf.
  destruct (Req.postingInstructions r) as [|pi pis] eqn:Epi;
    [contradiction|].
  destruct (Req.requisitionLocations r) as [|loc locs] eqn:Eloc;
    [contradiction|].
  rewrite (callback_files Date_parse now jobMap r d pi pis loc locs);
    auto.
  - unfold push_opening.
    destruct (own d jobMap) as [arr|] eqn:Hown.
    + exfalso. apply own_In in Hown.
      unfold no_inherited in Hwf. rewrite Forall_forall in Hwf.
      assert (inherited d = false); [|congruence].
      apply Hwf. change d with (fst (d, arr)). now apply in_map.
    + rewrite Hinh. eauto.
  - intros ->. discriminate.
  - unfold expireDate_of in Hx. now rewrite Epi in Hx.
Qed.

End Answers.

(** ** Records and items *)

Section Items.

Variable Date_parse : string -> option Z.
Variable now : Z.

Lemma is_expired_true x :
  is_expired Date_parse now x = true <->
  exists s t, x = Some s /\ s <> "" /\ Date_parse s = Some t /\ t < now.
Proof.
  unfold is_expired. split.
  - destruct x as [s|]; [|discriminate].
    destruct (String.eqb_spec s ""); [discriminate|].
    destruct (Date_parse s) as [t|] eqn:Ht; [|discriminate].
    intros Hlt. apply Z.ltb_lt in Hlt. exists s, t. auto.
  - intros (s & t & -> & Hs & -> & Hlt).
    destruct (String.eqb_spec s ""); [contradiction|]. now apply Z.ltb_lt.
Qed.

(** What a record produces, read off its three first elements. *)
Lemma produced_inv r :
  produced Date_parse now r = [] \/
  exists ou ous pi pis loc locs,
    Req.organizationalUnits r = ou :: ous /\
    Req.postingInstructions r = pi :: pis /\
    Req.requisitionLocations r = loc :: locs /\
    nullish (Req.shortName (Req.ou_nameCode ou)) "Others" <> "All" /\
    inherited (nullish (Req.shortName (Req.ou_nameCode ou)) "Others") = false /\
    is_expired Date_parse now (Req.expireDate pi) = false /\
    produced Date_parse now r =
    [(nullish (Req.shortName (Req.ou_nameCode ou)) "Others",
      item_from r pi loc)].
Proof.
  unfold produced.
  destruct (Req.organizationalUnits r) as [|ou ous] eqn:Hou.
  { left. now rewrite callback_no_units. }
  assert (Hd : department_of r =
               Some (nullish (Req.shortName (Req.ou_nameCode ou)) "Others")).
  { unfold department_of. now rewrite Hou. }
  set (d := nullish (Req.shortName (Req.ou_nameCode ou)) "Others") in *.
  destruct (string_dec d "All") as [E|NE].
  { left. rewrite callback_All; [reflexivity | now rewrite Hd, E]. }
  destruct (Req.postingInstructions r) as [|pi pis] eqn:Hp.
  { left. now rewrite (callback_no_postings _ _ _ r d). }
  destruct (Req.requisitionLocations r) as [|loc locs] eqn:Hl.
  { left. rewrite (callback_no_locations _ _ _ r d); auto. now rewrite Hp. }
  destruct (is_expired Date_parse now (Req.expireDate pi)) eqn:He.
  { left. rewrite (callback_expired _ _ _ r d); auto.
    - now rewrite Hp.
    - now rewrite Hl.
    - unfold expireDate_of. now rewrite Hp. }
  rewrite (callback_files _ _ _ r d pi pis loc locs); auto.
  unfold push_opening. simpl.
  destruct (inherited d) eqn:Hi; [now left|].
  right. exists ou, ous, pi, pis, loc, locs. now repeat split.
Qed.

(** X7: every item of a returned map is the projection of one input
    record: it is filed under the short name of that record's first
    organizational unit ("Others" without one) and takes its title and
    expire date from the first posting instruction, its city, region
    (empty by default) and country from the first location, its worker
    type (empty by default) and its link from the record. *)
Theorem every_item_is_a_projection openings jobMap d arr o :
  restructureOpenings Date_parse now openings = Normal jobMap ->
  In (d, arr) (entries jobMap) ->
  In o arr ->
  exists r ou ous pi pis loc locs,
    In r (Req.jobRequisitions openings) /\
    Req.organizationalUnits r = ou :: ous /\
    Req.postingInstructions r = pi :: pis /\
    Req.requisitionLocations r = loc :: locs /\
    d = nullish (Req.shortName (Req.ou_nameCode ou)) "Others" /\
    o = item_from r pi loc /\
    Opn.jobTitle o = Req.codeValue (Req.pi_nameCode pi) /\
    Opn.expireDate o = Req.expireDate pi /\
    Opn.cityName o = Req.cityName (Req.address loc) /\
    Opn.countryCode o = Req.countryCode (Req.address loc) /\
    (Req.countrySubdivisionLevel1 (Req.address loc) = None ->
     Opn.codeValue o = "") /\
    (Req.workerTypeCode r = None -> Opn.workerTypeCode o = "").
Proof.
  intros Hrun Hentry Ho.
  apply (Permutation_in _ (entries_perm jobMap)) in Hentry.
  assert (Hitem : In (d, o) (items jobMap)).
  { unfold items. apply in_flat_map. exists (d, arr).
    split; [assumption|]. now apply in_map. }
  apply restructureOpenings_Normal in Hrun. rewrite Hrun in Hitem.
  apply (Permutation_in _ (items_filed _ [])) in Hitem. simpl in Hitem.
  apply in_flat_map in Hitem. destruct Hitem as (r & Hr & Hprod).
  destruct (produced_inv r)
    as [E|(ou & ous & pi & pis & loc & locs & Hou & Hp & Hl & _ & _ & _ & E)];
    rewrite E in Hprod; simpl in Hprod; [contradiction|].
  destruct Hprod as [[= <- <-]|[]].
  exists r, ou, ous, pi, pis, loc, locs.
  repeat split; try assumption; simpl; now intros ->.
Qed.

(** X9: the first record that throws decides the outcome: the records
    after it are not looked at, so any continuation of an input on which
    the transform throws makes it throw the same error. *)
Theorem first_failure_decides rs mt e :
  restructureOpenings Date_parse now
    {| Req.jobRequisitions := rs; Req.meta := mt |} = Throw e ->
  forall more mt',
    restructureOpenings Date_parse now
      {| Req.jobRequisitions := rs ++ more; Req.meta := mt' |} = Throw e.
Proof.
  unfold restructureOpenings. simpl. intros Hrun more mt'.
  now rewrite forEach_app, Hrun.
Qed.

Lemma forEach_ext {A S : Type} (f g : S -> A -> completion S) (h : A -> A) :
  (forall s x, f s (h x) = g s x) ->
  forall l s, forEach f (map h l) s = forEach g l s.
Proof.
  intros H. induction l as [|x l IH]; intros s; simpl; [reflexivity|].
  rewrite H. destruct (g s x); simpl; [apply IH | reflexivity].
Qed.

(** X10: of [organizationalUnits], [postingInstructions] and
    [requisitionLocations] only the first elements are read: cutting every
    record down to them changes neither what the callback does nor what the
    transform returns or throws. *)
Theorem only_first_elements_are_read :
  (forall jobMap r,
      callback Date_parse now jobMap (first_only r) =
      callback Date_parse now jobMap r) /\
  (forall rs mt,
      restructureOpenings Date_parse now
        {| Req.jobRequisitions := map first_only rs; Req.meta := mt |} =
      restructureOpenings Date_parse now
        {| Req.jobRequisitions := rs; Req.meta := mt |}).
Proof.
  assert (Hcb : forall jobMap r,
             callback Date_parse now jobMap (first_only r) =
             callback Date_parse now jobMap r).
  { intros jobMap r. unfold callback, first_only. simpl.
    destruct (Req.organizationalUnits r) as [|ou ous]; [reflexivity|].
    simpl.
    destruct (String.eqb
                (nullish (Req.shortName (Req.ou_nameCode ou)) "Others")
                "All"); [reflexivity|].
    destruct (Req.postingInstructions r) as [|pi pis]; [reflexivity|].
    simpl.
    destruct (Req.requisitionLocations r) as [|loc locs]; reflexivity. }
  split; [exact Hcb|].
  intros rs mt. unfold restructureOpenings. simpl.
  now apply forEach_ext.
Qed.

(** X11: a record alone in the input is filed exactly when its first
    organizational unit exists and gives a department that is neither
    "All" nor a name of [Object.prototype], its first posting instruction
    and first location exist, and it is not expired; and it is expired
    exactly when its expire date is a non-empty string that parses to a
    time strictly before the current one, so that an absent, empty or
    unparseable date, and a date equal to the current time, all keep it. *)
Theorem record_is_filed_iff r mt :
  ((exists d o,
      restructureOpenings Date_parse now
        {| Req.jobRequisitions := [r]; Req.meta := mt |} =
      Normal [(d, [o])]) <->
   (exists d,
      department_of r = Some d /\ d <> "All" /\ ~ In d Object_prototype /\
      Req.postingInstructions r <> [] /\
      Req.requisitionLocations r <> [] /\
      is_expired Date_parse now (expireDate_of r) = false))
  /\
  (is_expired Date_parse now (expireDate_of r) = true <->
   exists s t, expireDate_of r = Some s /\ s <> "" /\
               Date_parse s = Some t /\ t < now).
Proof.
  split; [|apply is_expired_true].
  unfold restructureOpenings. simpl. split.
  - intros (d & o & Hrun).
    destruct (callback Date_parse now [] r) as [m|e] eqn:Hcb;
      simpl in Hrun; [|discriminate].
    injection Hrun as ->.
    destruct (produced_inv r)
      as [E|(ou & ous & pi & pis & loc & locs
             & Hou & Hp & Hl & Hne & Hinh & Hx & E)];
      unfold produced in E; rewrite Hcb in E; [discriminate|].
    exists (nullish (Req.shortName (Req.ou_nameCode ou)) "Others").
    unfold department_of, expireDate_of. rewrite Hou, Hp, Hl.
    repeat split; try assumption; try discriminate.
    intros Hproto.
    apply (proj2 (existsb_eqb_In _ Object_prototype)) in Hproto.
    unfold inherited in Hinh. congruence.
  - intros (d & Hd & Hne & Hproto & Hp & Hl & Hx).
    destruct (Req.postingInstructions r) as [|pi pis] eqn:Epi;
      [contradiction|].
    destruct (Req.requisitionLocations r) as [|loc locs] eqn:Eloc;
      [contradiction|].
    exists d. eexists.
    rewrite (callback_files Date_parse now [] r d pi pis loc locs); auto.
    + unfold push_opening. simpl.
      destruct (inherited d) eqn:Hinh; [|reflexivity].
      exfalso. apply Hproto.
      exact (proj1 (existsb_eqb_In d Object_prototype) Hinh).
    + unfold expireDate_of in Hx. now rewrite Epi in Hx.
Qed.

End Items.

(** ** The passing of time *)

Lemma produced_files_item Date_parse now r ou ous pi pis loc locs :
  Req.organizationalUnits r = ou :: ous ->
  Req.postingInstructions r = pi :: pis ->
  Req.requisitionLocations r = loc :: locs ->
  nullish (Req.shortName (Req.ou_nameCode ou)) "Others" <> "All" ->
  inherited (nullish (Req.shortName (Req.ou_nameCode ou)) "Others") = false ->
  is_expired Date_parse now (Req.expireDate pi) = false ->
  produced Date_parse now r =
  [(nullish (Req.shortName (Req.ou_nameCode ou)) "Others",
    item_from r pi loc)].
Proof.
  intros Hou Hp Hl Hne Hinh Hx. unfold produced.
  rewrite (callback_files Date_parse now [] r
             (nullish (Req.shortName (Req.ou_nameCode ou)) "Others")
             pi pis loc locs);
    auto; [|unfold department_of; now rewrite Hou].
  unfold push_opening. simpl. now rewrite Hinh.
Qed.

(** X13: time only takes records away.  A date that counts as expired at
    one time counts as expired at every later time, and what a record
    produces at the later time is either nothing or the very item it
    produced at the earlier time. *)
Theorem later_runs_only_drop_records Date_parse now later r :
  now <= later ->
  (forall x, is_expired Date_parse now x = true ->
             is_expired Date_parse later x = true) /\
  (produced Date_parse later r = [] \/
   produced Date_parse later r = produced Date_parse now r).
Proof.
  intros Hle.
  assert (Hmono : forall x, is_expired Date_parse now x = true ->
                            is_expired Date_parse later x = true).
  { intros x Hx. apply is_expired_true in Hx.
    destruct Hx as (s & t & -> & Hs & Ht & Hlt).
    apply is_expired_true. exists s, t. repeat split; auto. lia. }
  split; [exact Hmono|].
  destruct (produced_inv Date_parse later r)
    as [E|(ou & ous & pi & pis & loc & locs
           & Hou & Hp & Hl & Hne & Hinh & Hx & E)]; [now left|].
  right. rewrite E. symmetry.
  apply (produced_files_item Date_parse now r ou ous pi pis loc locs);
    auto.
  destruct (is_expired Date_parse now (Req.expireDate pi)) eqn:Hnow;
    [|reflexivity].
  apply Hmono in Hnow. congruence.
Qed.

(** ** The further properties at sample inputs *)

(** Two pages, the second reporting fewer records than the first: the
    total returned is the second one's. *)
Lemma fetch_of_a_shrinking_listing :
  fetchJobRequisitions Scenario.shrinking_upstream 2 =
  ([POST_token; GET_page "Bearer t0k3n" 0; GET_page "Bearer t0k3n" 20],
   Some (Normal (Sample.batch
                   (Sample.page_of 30 0 ++ Sample.page_of 25 20) 25))).
Proof.
  apply (proj2 (fetch_returns_the_chain Scenario.shrinking_upstream 2 _ _)).
  exists (Some "t0k3n"),
    [Sample.batch (Sample.page_of 30 0) 30;
     Sample.batch (Sample.page_of 25 20) 25].
  split; [reflexivity|]. split.
  - simpl. repeat split; try reflexivity. lia.
  - split; [apply le_n|]. split; reflexivity.
Defined.

Lemma ever_growing_listing_never_returns :
  GET Sample.Date_parse Scenario.ever_growing 4 =
  ([POST_token; GET_page "Bearer t0k3n" 0; GET_page "Bearer t0k3n" 20;
    GET_page "Bearer t0k3n" 40; GET_page "Bearer t0k3n" 60], None).
Proof.
  apply (fetch_has_no_page_cap Sample.Date_parse Scenario.ever_growing
           (Some "t0k3n") 4).
  - reflexivity.
  - intros skip. exists (Sample.batch [] (skip + 21)).
    split; [reflexivity|]. simpl. lia.
Defined.

Lemma answer_for_two_departments_is_well_formed :
  NoDup ["7"; "Sales"] /\
  forall d arr,
    In (d, arr) [("7", [Sample.item None]);
                 ("Sales", [Sample.item None; Sample.item None])] ->
    d <> "All" /\ ~ In d Object_prototype /\ arr <> [].
Proof.
  apply (openings_answer_is_well_formed Sample.Date_parse
           (Scenario.one_page [Sample.requisition (Some "Sales") None;
                               Sample.requisition (Some "7") None;
                               Sample.requisition (Some "All") None;
                               Sample.requisition (Some "Sales") None])
           1 _ _ _ eq_refl eq_refl).
Defined.

Lemma missing_location_is_answered_500 :
  GET Sample.Date_parse
    (Scenario.one_page [Sample.requisition (Some "Sales") None;
                        Scenario.nowhere]) 1 =
  ([POST_token; GET_page "Bearer t0k3n" 0],
   Some (Responds
           {| body :=
                Json_error
                  "Cannot read properties of undefined (reading 'address')";
              http_status := 500 |})).
Proof.
  apply (transform_failure_is_answered_500 Sample.Date_parse
           (Scenario.one_page [Sample.requisition (Some "Sales") None;
                               Scenario.nowhere]) 1 _ _
           (new_Error
              "Cannot read properties of undefined (reading 'address')")
           eq_refl eq_refl).
Defined.

Lemma constructor_department_fails :
  exists e,
    restructureOpenings Sample.Date_parse Sample.today
      (Sample.batch [Sample.requisition (Some "Sales") None;
                     Sample.requisition (Some "constructor") None] 2)
    = Throw e /\ response e = None.
Proof.
  apply (prototype_named_department_fails Sample.Date_parse Sample.today
           (Sample.batch [Sample.requisition (Some "Sales") None;
                          Sample.requisition (Some "constructor") None] 2)
           (Sample.requisition (Some "constructor") None) "constructor").
  - right. now left.
  - reflexivity.
  - now left.
  - discriminate.
  - discriminate.
  - reflexivity.
Defined.

Lemma crowded_record_is_projected :
  exists r ou ous pi pis loc locs,
    In r [Sample.requisition None None; Scenario.crowded] /\
    Req.organizationalUnits r = ou :: ous /\
    Req.postingInstructions r = pi :: pis /\
    Req.requisitionLocations r = loc :: locs /\
    "Sales" = nullish (Req.shortName (Req.ou_nameCode ou)) "Others" /\
    Scenario.crowded_item = item_from r pi loc.
Proof.
  destruct (every_item_is_a_projection Sample.Date_parse Sample.today
              (Sample.batch [Sample.requisition None None;
                             Scenario.crowded] 2)
              [("Others", [Sample.item None]);
               ("Sales", [Scenario.crowded_item])]
              "Sales" [Scenario.crowded_item] Scenario.crowded_item
              eq_refl (or_intror (or_introl eq_refl)) (or_introl eq_refl))
    as (r & ou & ous & pi & pis & loc & locs
        & Hr & Hou & Hp & Hl & Hd & Ho & _).
  exists r, ou, ous, pi, pis, loc, locs. now repeat split.
Defined.

Lemma records_after_a_failure_are_not_read :
  restructureOpenings Sample.Date_parse Sample.today
    (Sample.batch [Sample.no_units; Scenario.nowhere;
                   Sample.requisition (Some "Sales") None] 3) =
  Throw (new_Error "Cannot read properties of undefined (reading 'nameCode')").
Proof.
  apply (first_failure_decides Sample.Date_parse Sample.today
           [Sample.no_units] {| Req.totalNumber := 1 |}
           (new_Error
              "Cannot read properties of undefined (reading 'nameCode')")
           eq_refl
           [Scenario.nowhere; Sample.requisition (Some "Sales") None]).
Defined.

(** An expire date that does not parse keeps the record. *)
Lemma unparseable_date_is_kept :
  exists d o,
    restructureOpenings Sample.Date_parse Sample.today
      (Sample.batch [Sample.requisition (Some "Sales") (Some "soon")] 1) =
    Normal [(d, [o])].
Proof.
  apply (proj2 (proj1 (record_is_filed_iff Sample.Date_parse Sample.today
                         (Sample.requisition (Some "Sales") (Some "soon"))
                         {| Req.totalNumber := 1 |}))).
  exists "Sales". repeat split; try discriminate.
  intros Hproto. simpl in Hproto.
  repeat (destruct Hproto as [Hproto|Hproto]; [discriminate|]).
  exact Hproto.
Defined.

(** A posting that expires in 2030 is produced today and gone in 2031. *)
Lemma record_is_gone_after_its_date :
  produced Sample.Date_parse 1924992000000
    (Sample.requisition (Some "Sales") (Some "2030-01-01T00:00:00.000Z")) = []
  \/
  produced Sample.Date_parse 1924992000000
    (Sample.requisition (Some "Sales") (Some "2030-01-01T00:00:00.000Z")) =
  produced Sample.Date_parse Sample.today
    (Sample.requisition (Some "Sales") (Some "2030-01-01T00:00:00.000Z")).
Proof.
  apply (later_runs_only_drop_records Sample.Date_parse Sample.today
           1924992000000).
  unfold Sample.today. lia.
Defined.

(** On a heap that holds an older object: the argument and the older object
    are left alone, and each of two runs in a row hands back, in an object
    of its own, the same two departments. *)
Example two_runs_on_a_heap :
  let '(h1, out1) :=
    restructureOpenings_on Sample.Date_parse Sample.today Scenario.heap in
  let '(h2, out2) :=
    restructureOpenings_on Sample.Date_parse Sample.today h1 in
  argument h2 = argument Scenario.heap /\
  out1 = Normal 1%nat /\ out2 = Normal 2%nat /\
  objects h2 =
  [[("kept", [Sample.item None])];
   [("Sales", [Sample.item None; Sample.item None]);
    ("Others", [Sample.item None])];
   [("Sales", [Sample.item None; Sample.item None]);
    ("Others", [Sample.item None])]].
Proof. vm_compute. repeat split. Qed.

(** The heap does let a callback write to the argument: one that does is
    seen to. *)
Example emptying_callback_is_seen :
  argument (fst (forEach_on Scenario.emptying 0 3 Scenario.heap)) <>
  argument Scenario.heap.
Proof. discriminate. Qed.
